(** * pdf-mcp: a verified model of the page dumper

    The development follows [src/main.py].  Python values are embedded as
    the inductive type [pyval]; dictionaries are finite maps with string
    keys, so that equality of models is Python's [==] on dictionaries.
    The PDF parsing library is an external collaborator and appears here
    only through what the program reads from it: a document is its object
    table and its list of pages, a stream is its object id, its filter
    list, its raw bytes and the outcome of [get_data()]. *)

From Stdlib Require Import ZArith NArith String List DecimalString DecimalZ.
From Stdlib.Strings Require Import Byte Ascii.
From stdpp Require Import gmap strings list fin_maps.

Local Open Scope string_scope.
Local Open Scope list_scope.
Local Open Scope Z_scope.

(** ** Bytes, ASCII text and base64 *)

Module Bytes.

Definition is_ascii (b : byte) : bool := (Byte.to_N b <? 128)%N.

(** [bs.decode("ascii")]: fails on any byte above 127. *)
Definition decode_ascii (bs : list byte) : option string :=
  if forallb is_ascii bs then Some (string_of_list_byte bs) else None.

Definition b64_alphabet : list byte :=
  list_byte_of_string
    "ABCDEFGHIJKLMNOPQRSTUVWXYZabcdefghijklmnopqrstuvwxyz0123456789+/".

Definition b64_pad : byte := "="%byte.

Definition b64_char (n : N) : byte :=
  default b64_pad (b64_alphabet !! N.to_nat n).

(** [base64.b64encode]: three input bytes give four output characters,
    the last group is padded with [=]. *)
Fixpoint b64encode (bs : list byte) : list byte :=
  match bs with
  | [] => []
  | [a] =>
      let n := Byte.to_N a in
      [b64_char (n / 4); b64_char ((n mod 4) * 16); b64_pad; b64_pad]
  | [a; b] =>
      let n := (Byte.to_N a * 256 + Byte.to_N b)%N in
      [b64_char (n / 1024); b64_char ((n / 16) mod 64);
       b64_char ((n mod 16) * 4); b64_pad]
  | a :: b :: c :: rest =>
      let n := (Byte.to_N a * 65536 + Byte.to_N b * 256 + Byte.to_N c)%N in
      b64_char (n / 262144) :: b64_char ((n / 4096) mod 64) ::
      b64_char ((n / 64) mod 64) :: b64_char (n mod 64) :: b64encode rest
  end.

End Bytes.

(** ** Python values handled by the dumper *)

(** What the program reads from a [PDFStream]. [stream_data] is the
    outcome of [get_data()]: [None] when the library fails to decode. *)
Record stream_of (V : Type) : Type := MkStream {
  stream_objid : option Z;
  stream_filters : list (V * V);
  stream_rawdata : list byte;
  stream_data : option (list byte)
}.
Arguments MkStream {V} _ _ _ _.
Arguments stream_objid {V} _.
Arguments stream_filters {V} _.
Arguments stream_rawdata {V} _.
Arguments stream_data {V} _.

#[warnings="-register-all"]
Inductive pyval : Type :=
  | PNone
  | PDict (d : gmap string pyval)
  | PList (l : list pyval)
  | PStr (s : string)
  | PBytes (b : list byte)
  | PStream (s : stream_of pyval)
  | PObjRef (objid : Z)
  | PInt (z : Z)
  | PLiteral (name : string)
  | POther (repr : string).

Abbreviation PDFStream := (stream_of pyval).

(** ** Outcomes: a result, a raised exception, or fuel exhausted *)

Inductive exn : Type :=
  | ValueError (msg : string)
  | UnicodeDecodeError
  | DecodeFailure
  | ParseFailure.

Inductive outcome (A : Type) : Type :=
  | Ok (a : A)
  | Raise (e : exn)
  | OutOfFuel.
Arguments Ok {A} _.
Arguments Raise {A} _.
Arguments OutOfFuel {A}.

Definition obind {A B} (m : outcome A) (k : A -> outcome B) : outcome B :=
  match m with
  | Ok a => k a
  | Raise e => Raise e
  | OutOfFuel => OutOfFuel
  end.

Notation "'let*' x := m 'in' k" := (obind m (fun x => k))
  (at level 10, x name, m at level 100, k at level 200).

Definition of_option {A} (e : exn) (o : option A) : outcome A :=
  match o with Some a => Ok a | None => Raise e end.

(** An outcome that more fuel cannot change. *)
Definition settled {A} (r : outcome A) : Prop := r <> OutOfFuel.

(** A [for] loop threading an accumulator through a fallible body. *)
Fixpoint for_each {A S} (body : S -> A -> outcome S) (xs : list A) (acc : S)
  : outcome S :=
  match xs with
  | [] => Ok acc
  | x :: rest => let* acc' := body acc x in for_each body rest acc'
  end.

(** ** The dumper *)

Definition str_int (z : Z) : string := NilZero.string_of_int (Z.to_int z).

(** [str(stream.objid)] inside the f-string. *)
Definition str_objid (o : option Z) : string :=
  match o with Some z => str_int z | None => "None" end.

Definition obj_key (o : option Z) : string := str_objid o +:+ " 0 obj".

(** [repr(obj)] of the atoms that reach the last line of [dump_obj];
    the other shapes are taken by the earlier tests.  An opaque atom
    carries its rendering. *)
Definition repr (obj : pyval) : string :=
  match obj with
  | PInt z => str_int z
  | PLiteral name => "/'" +:+ name +:+ "'"
  | POther r => r
  | _ => ""
  end.

(** pdfminer's [LITERALS_FLATE_DECODE]. *)
Definition LITERALS_FLATE_DECODE : list string := ["FlateDecode"; "Fl"].

(** [f in LITERALS_FLATE_DECODE]: literals are interned, so membership
    holds exactly for a literal carrying one of the two names. *)
Definition is_flate (f : pyval) : bool :=
  match f with
  | PLiteral name => bool_decide (name ∈ LITERALS_FLATE_DECODE)
  | _ => false
  end.

(** [stream.get_data().decode("ascii")] *)
Definition decoded_text {V} (s : stream_of V) : outcome string :=
  let* bs := of_option DecodeFailure (stream_data s) in
  of_option UnicodeDecodeError (Bytes.decode_ascii bs).

(** [base64(b)] as text. *)
Definition base64 (bs : list byte) : string :=
  string_of_list_byte (Bytes.b64encode bs).

(** [b64encode(bs).decode("ascii")] *)
Definition b64_text (bs : list byte) : outcome string :=
  of_option UnicodeDecodeError (Bytes.decode_ascii (Bytes.b64encode bs)).

(** One iteration of the filter loop of [dump_stream]. *)
Definition filter_step (s : PDFStream) (result : gmap string pyval)
    (fp : pyval * pyval) : outcome (gmap string pyval) :=
  let '(f, params) := fp in
  if is_flate f then
    let* t := decoded_text s in
    Ok (<["stream" := PStr t]> result)
  else
    let result := <["params" := params]> result in
    let* t := b64_text (stream_rawdata s) in
    Ok (<["stream" := PStr t]> result).

Definition stream_inner (s : PDFStream) : outcome (gmap string pyval) :=
  let filters := stream_filters s in
  let result : gmap string pyval := ∅ in
  match filters with
  | _ :: _ => for_each (filter_step s) filters result
  | [] =>
      let* t := decoded_text s in
      Ok (<["stream" := PStr t]> result)
  end.

Definition dump_stream (s : PDFStream) : outcome pyval :=
  let* result := stream_inner s in
  Ok (PDict {[ obj_key (stream_objid s) := PDict result ]}).

(** [resolve1]: follow references until a non-reference is reached; an
    id missing from the object table resolves to [None]. *)
Fixpoint resolve1 (fuel : nat) (objs : gmap Z pyval) (x : pyval)
  : outcome pyval :=
  match x with
  | PObjRef objid =>
      match fuel with
      | O => OutOfFuel
      | S fuel' => resolve1 fuel' objs (default PNone (objs !! objid))
      end
  | _ => Ok x
  end.

(** Visit the items of a dictionary, storing the image of each value
    under its key.  A finite map does not record insertion order: the
    items are visited in the order of [map_to_list], which matters only
    for which of two failing items is reported. *)
Definition dict_items (f : pyval -> outcome pyval) (d : gmap string pyval)
  : outcome (gmap string pyval) :=
  for_each (fun acc kv => let* v := f kv.2 in Ok (<[kv.1 := v]> acc))
           (map_to_list d) ∅.

Definition list_items (f : pyval -> outcome pyval) (l : list pyval)
  : outcome (list pyval) :=
  for_each (fun acc x => let* v := f x in Ok (acc ++ [v])) l [].

(** [dump_obj], the tests in the order of the source.  References are
    resolved in the object table [objs] of the document; a cyclic table
    makes the source recurse for ever, hence the fuel. *)
Fixpoint dump_obj (fuel : nat) (objs : gmap Z pyval) (obj : pyval)
  : outcome pyval :=
  match fuel with
  | O => OutOfFuel
  | S fuel' =>
      match obj with
      | PNone => Ok PNone
      | PDict d => let* d' := dict_items (dump_obj fuel' objs) d in Ok (PDict d')
      | PList l => let* l' := list_items (dump_obj fuel' objs) l in Ok (PList l')
      | PStr s => Ok (PStr s)
      | PBytes b => let* t := b64_text b in Ok (PStr t)
      | PStream s => dump_stream s
      | PObjRef _ =>
          let* target := resolve1 fuel' objs obj in
          dump_obj fuel' objs target
      | _ => Ok (PStr (repr obj))
      end
  end.

Record PDFPage : Type := MkPage {
  page_contents : list pyval;
  page_resources : gmap string pyval
}.

Record PDFDocument : Type := MkDoc {
  doc_objects : gmap Z pyval;
  doc_pages : list PDFPage
}.

Section PageDumper.

(** [PDFDocument(PDFParser(BytesIO(data)))] *)
Variable parse : list byte -> exn + PDFDocument.

(** The body of the [if i + 1 == pagenum] branch. *)
Definition dump_matched_page (fuel : nat) (objs : gmap Z pyval)
    (page : PDFPage) : outcome pyval :=
  let* contents :=
    for_each (fun _ obj => dump_obj fuel objs obj)
             (page_contents page) (PDict ∅) in
  (* resources[str(k)] = dump_obj(v): the keys are text already *)
  let* resources := dict_items (dump_obj fuel objs) (page_resources page) in
  Ok (PDict {[ "contents" := contents; "resources" := PDict resources ]}).

(** The [enumerate] loop, [i] being the index of the head of [pages]. *)
Fixpoint walk_pages (fuel : nat) (objs : gmap Z pyval) (pagenum : Z)
    (i : Z) (pages : list PDFPage) : outcome pyval :=
  match pages with
  | [] => Raise (ValueError "Page out of range")
  | page :: rest =>
      if i + 1 =? pagenum then dump_matched_page fuel objs page
      else walk_pages fuel objs pagenum (i + 1) rest
  end.

(** [dump_page]: a parse failure is raised unchanged. *)
Definition dump_page (fuel : nat) (data : list byte) (pagenum : Z)
  : outcome pyval :=
  match parse data with
  | inl e => Raise e
  | inr doc => walk_pages fuel (doc_objects doc) pagenum 0 (doc_pages doc)
  end.

End PageDumper.

(** The value [f] returns, [None] standing for the cases without one. *)
Definition result_of (f : pyval -> outcome pyval) (v : pyval) : pyval :=
  match f v with Ok r => r | _ => PNone end.

(** ** Fully normalized values *)

(** Nesting depth of a value; bounds the fuel a reference-free value
    needs. *)
Fixpoint height (v : pyval) : nat :=
  match v with
  | PDict d => S (map_fold (fun _ x acc => Nat.max (height x) acc) O d)
  | PList l => S (foldr (fun x acc => Nat.max (height x) acc) O l)
  | _ => 1
  end.

(** [None], text, and dictionaries and lists of such values. *)
Fixpoint is_normalized (v : pyval) : bool :=
  match v with
  | PNone => true
  | PStr _ => true
  | PDict d => map_fold (fun _ x acc => is_normalized x && acc) true d
  | PList l => forallb is_normalized l
  | _ => false
  end.

(** ** Sample documents *)

Module Samples.

Definition hello : list byte := list_byte_of_string "BT /F1 12 Tf ET".

Definition plain_stream : PDFStream := MkStream (Some 4) [] hello (Some hello).

Definition one_page_doc : PDFDocument :=
  MkDoc {[ 4 := PStream plain_stream ]} [MkPage [PObjRef 4] ∅].

Definition parse_one_page (_ : list byte) : exn + PDFDocument :=
  inr one_page_doc.

(** A page without content streams whose only resource is a stream of
    non-ASCII bytes, such as an embedded font program. *)
Definition binary_stream : PDFStream :=
  MkStream (Some 5) [] [xff]%byte (Some [xff]%byte).

Definition binary_resource_doc : PDFDocument :=
  MkDoc ∅ [MkPage [] {[ "F1" := PStream binary_stream ]}].

Definition parse_binary_resource (_ : list byte) : exn + PDFDocument :=
  inr binary_resource_doc.

(** A page with two content streams. *)
Definition stream_A : PDFStream :=
  MkStream (Some 10) [] (list_byte_of_string "q") (Some (list_byte_of_string "q")).

Definition stream_B : PDFStream :=
  MkStream (Some 11) [] (list_byte_of_string "Q") (Some (list_byte_of_string "Q")).

Definition two_streams_page : PDFPage :=
  MkPage [PObjRef 10; PObjRef 11] {[ "ProcSet" := PList [PLiteral "PDF"] ]}.

Definition two_streams_doc : PDFDocument :=
  MkDoc {[ 10 := PStream stream_A; 11 := PStream stream_B ]}
        [MkPage [] ∅; two_streams_page].

Definition parse_two_streams (_ : list byte) : exn + PDFDocument :=
  inr two_streams_doc.

End Samples.

(** ** What the filter loop leaves behind *)

(** The stream with another filter list, everything else unchanged. *)
Definition with_filters (s : PDFStream) (fs : list (pyval * pyval)) : PDFStream :=
  MkStream (stream_objid s) fs (stream_rawdata s) (stream_data s).

(** The text stored under "stream" by an iteration on filter [f]. *)
Definition stream_text (s : PDFStream) (f : pyval) : outcome string :=
  if is_flate f then decoded_text s else b64_text (stream_rawdata s).

(** Parameters of the last pair whose filter is not deflate-style. *)
Fixpoint last_unrecognized (fs : list (pyval * pyval)) : option pyval :=
  match fs with
  | [] => None
  | (f, p) :: rest =>
      match last_unrecognized rest with
      | Some q => Some q
      | None => if is_flate f then None else Some p
      end
  end.

Definition set_params (o : option pyval) (acc : gmap string pyval)
  : gmap string pyval :=
  match o with Some p => <["params" := p]> acc | None => acc end.

(** Sample streams with two filters. *)
Module FilterSamples.

Definition flate : pyval := PLiteral "FlateDecode".
Definition ascii85 : pyval := PLiteral "ASCII85Decode".
Definition parms1 : pyval := PDict {[ "Predictor" := PInt 12 ]}.
Definition parms2 : pyval := PDict ∅.
Definition raw : list byte := [x78; x9c; xff]%byte.
Definition text : list byte := list_byte_of_string "0 0 m".

Definition unknown_then_flate : PDFStream :=
  MkStream (Some 3) [(ascii85, parms1); (flate, parms2)] raw (Some text).

Definition flate_then_unknown : PDFStream :=
  MkStream (Some 3) [(flate, parms1); (ascii85, parms2)] raw (Some text).

(** Deflate first, but the decoded bytes are not ASCII. *)
Definition flate_binary_then_unknown : PDFStream :=
  MkStream (Some 3) [(flate, parms1); (ascii85, parms2)] raw (Some [xff]%byte).

End FilterSamples.

(** [v[k]] on a dictionary. *)
Definition dict_get (k : string) (v : pyval) : option pyval :=
  match v with PDict d => d !! k | _ => None end.

(** ** The dumper over an object store

    Purity is a statement about object identity, so it is stated on a
    second embedding of [dump_obj] and [dump_stream] in which
    dictionaries, lists and streams live in a heap and values refer to
    them by location.  Text, bytes and the other atoms are immutable and
    stay values.  The only effects are allocation and the item
    assignments [dump_stream] performs on its [result] dictionary. *)

Module Heap.

Definition loc := nat.

Inductive hval : Type :=
  | HNone
  | HStr (s : string)
  | HBytes (b : list byte)
  | HObjRef (objid : Z)
  | HInt (z : Z)
  | HLiteral (name : string)
  | HOther (repr : string)
  | HRef (l : loc).

Inductive hobj : Type :=
  | ODict (d : gmap string hval)
  | OList (xs : list hval)
  | OStream (s : stream_of hval).

Abbreviation heap := (gmap loc hobj).

(** Outcome of a computation on the heap. [HStuck] stands for the use of
    a location that holds no object of the expected kind, which no
    Python execution reaches. *)
Inductive hresult (A : Type) : Type :=
  | HOk (a : A) (h : heap)
  | HRaise (e : exn) (h : heap)
  | HOutOfFuel
  | HStuck.
Arguments HOk {A} _ _.
Arguments HRaise {A} _ _.
Arguments HOutOfFuel {A}.
Arguments HStuck {A}.

Definition M (A : Type) : Type := heap -> hresult A.

Definition ret {A} (a : A) : M A := fun h => HOk a h.

Definition bind {A B} (m : M A) (k : A -> M B) : M B :=
  fun h =>
    match m h with
    | HOk a h' => k a h'
    | HRaise e h' => HRaise e h'
    | HOutOfFuel => HOutOfFuel
    | HStuck => HStuck
    end.

Notation "'do*' x := m 'in' k" := (bind m (fun x => k))
  (at level 10, x name, m at level 100, k at level 200).

(** A computation without effect on the heap. *)
Definition lift {A} (o : outcome A) : M A :=
  fun h =>
    match o with
    | Ok a => HOk a h
    | Raise e => HRaise e h
    | OutOfFuel => HOutOfFuel
    end.

(** A new object, at a location not in use. *)
Definition alloc (o : hobj) : M loc :=
  fun h => let l := fresh (dom h) in HOk l (<[l := o]> h).

(** [d[k] = v] on the dictionary at [l]. *)
Definition setitem (l : loc) (k : string) (v : hval) : M unit :=
  fun h =>
    match h !! l with
    | Some (ODict d) => HOk tt (<[l := ODict (<[k := v]> d)]> h)
    | _ => HStuck
    end.

Definition load (l : loc) : M hobj :=
  fun h => match h !! l with Some o => HOk o h | None => HStuck end.

Fixpoint for_each_h {A} (body : A -> M unit) (xs : list A) : M unit :=
  match xs with
  | [] => ret tt
  | x :: rest => do* _ := body x in for_each_h body rest
  end.

Definition repr (obj : hval) : string :=
  match obj with
  | HInt z => str_int z
  | HLiteral name => "/'" +:+ name +:+ "'"
  | HOther r => r
  | _ => ""
  end.

Definition is_flate (f : hval) : bool :=
  match f with
  | HLiteral name => bool_decide (name ∈ LITERALS_FLATE_DECODE)
  | _ => false
  end.

Definition filter_step (s : stream_of hval) (result : loc) (fp : hval * hval)
  : M unit :=
  let '(f, params) := fp in
  if is_flate f then
    do* t := lift (decoded_text s) in
    setitem result "stream" (HStr t)
  else
    do* _ := setitem result "params" params in
    do* t := lift (b64_text (stream_rawdata s)) in
    setitem result "stream" (HStr t).

Definition dump_stream (s : stream_of hval) : M hval :=
  let filters := stream_filters s in
  do* result := alloc (ODict ∅) in
  do* _ := match filters with
           | _ :: _ => for_each_h (filter_step s result) filters
           | [] =>
               do* t := lift (decoded_text s) in
               setitem result "stream" (HStr t)
           end in
  do* record := alloc (ODict {[ obj_key (stream_objid s) := HRef result ]}) in
  ret (HRef record).

Fixpoint resolve1 (fuel : nat) (objs : gmap Z hval) (x : hval) : outcome hval :=
  match x with
  | HObjRef objid =>
      match fuel with
      | O => OutOfFuel
      | S fuel' => resolve1 fuel' objs (default HNone (objs !! objid))
      end
  | _ => Ok x
  end.

(** The items of a comprehension, computed in order. *)
Fixpoint dict_items (f : hval -> M hval) (kvs : list (string * hval))
    (acc : gmap string hval) : M (gmap string hval) :=
  match kvs with
  | [] => ret acc
  | kv :: rest => do* v := f kv.2 in dict_items f rest (<[kv.1 := v]> acc)
  end.

Fixpoint list_items (f : hval -> M hval) (xs : list hval) (acc : list hval)
  : M (list hval) :=
  match xs with
  | [] => ret acc
  | x :: rest => do* v := f x in list_items f rest (acc ++ [v])
  end.

Fixpoint dump_obj (fuel : nat) (objs : gmap Z hval) (obj : hval) : M hval :=
  match fuel with
  | O => fun _ => HOutOfFuel
  | S fuel' =>
      match obj with
      | HNone => ret HNone
      | HRef l =>
          do* o := load l in
          match o with
          | ODict d =>
              do* d' := dict_items (dump_obj fuel' objs) (map_to_list d) ∅ in
              do* l' := alloc (ODict d') in
              ret (HRef l')
          | OList xs =>
              do* xs' := list_items (dump_obj fuel' objs) xs [] in
              do* l' := alloc (OList xs') in
              ret (HRef l')
          | OStream s => dump_stream s
          end
      | HStr s => ret (HStr s)
      | HBytes b => do* t := lift (b64_text b) in ret (HStr t)
      | HObjRef _ =>
          do* target := lift (resolve1 fuel' objs obj) in
          dump_obj fuel' objs target
      | _ => ret (HStr (repr obj))
      end
  end.

(** Shape of a tree built by the dumper above the heap [h] it started
    from, read in the heap [h'] it ended with: every dictionary and list
    is an object that [h] does not have.  With [shared_params] the inner
    dictionary of a stream record may hold any value under "params". *)
Inductive built (shared_params : bool) (h h' : heap) : hval -> Prop :=
  | built_atom v :
      (forall l, v <> HRef l) -> built shared_params h h' v
  | built_dict l d :
      h !! l = None -> h' !! l = Some (ODict d) ->
      (forall k v, d !! k = Some v -> built shared_params h h' v) ->
      built shared_params h h' (HRef l)
  | built_list l xs :
      h !! l = None -> h' !! l = Some (OList xs) ->
      (forall v, v ∈ xs -> built shared_params h h' v) ->
      built shared_params h h' (HRef l)
  | built_record l key lr inner :
      shared_params = true ->
      h !! l = None -> h' !! l = Some (ODict {[ key := HRef lr ]}) ->
      h !! lr = None -> h' !! lr = Some (ODict inner) ->
      (forall k v, inner !! k = Some v ->
         (k = "params" \/ exists t, v = HStr t)) ->
      built shared_params h h' (HRef l).

(** What a computation started above [h0] must leave behind: the objects
    of [h0] as they were, and [Q] of the result. *)
Definition post {A} (h0 : heap) (Q : A -> heap -> Prop) (r : hresult A) : Prop :=
  match r with
  | HOk a h' => h0 ⊆ h' /\ Q a h'
  | HRaise _ h' => h0 ⊆ h'
  | HOutOfFuel => True
  | HStuck => True
  end.

(** Entries [dump_stream] writes into its [result] dictionary. *)
Definition record_entries (inner : gmap string hval) : Prop :=
  forall k v, inner !! k = Some v -> k = "params" \/ exists t, v = HStr t.

(** The claim that the returned tree is freshly constructed. *)
Definition fresh_tree : heap -> heap -> hval -> Prop := built false.

(** A stream with an unrecognized filter whose parameters are the
    dictionary at location 0, itself at location 1. *)
Definition params_dict : hobj := ODict {[ "K" := HInt (-1) ]}.

Definition fax_stream : stream_of hval :=
  MkStream (Some 8) [(HLiteral "CCITTFaxDecode", HRef 0%nat)]
           [x00; x01]%byte (Some [xff]%byte).

Definition fax_heap : heap := {[ 0%nat := params_dict; 1%nat := OStream fax_stream ]}.

(** Heaps without dangling locations: every location stored in an
    object, in the object table or passed as argument holds an object. *)
Definition closed_val (h : heap) (v : hval) : Prop :=
  match v with HRef l => is_Some (h !! l) | _ => True end.

Definition closed_obj (h : heap) (o : hobj) : Prop :=
  match o with
  | ODict d => forall k v, d !! k = Some v -> closed_val h v
  | OList xs => forall v, v ∈ xs -> closed_val h v
  | OStream s => forall f p, (f, p) ∈ stream_filters s -> closed_val h p
  end.

Definition closed_heap (h : heap) : Prop :=
  forall l o, h !! l = Some o -> closed_obj h o.

Definition closed_objs (h : heap) (objs : gmap Z hval) : Prop :=
  forall objid v, objs !! objid = Some v -> closed_val h v.

(** A computation that does not get stuck, and ends in [Q] when it
    returns. *)
Definition safe {A} (Q : A -> heap -> Prop) (r : hresult A) : Prop :=
  match r with
  | HOk a h' => Q a h'
  | HRaise _ _ => True
  | HOutOfFuel => True
  | HStuck => False
  end.

(** The heap has grown from [h0] and is still closed. *)
Definition grown (h0 h : heap) : Prop := dom h0 ⊆ dom h /\ closed_heap h.

(** The heap after dumping the stream at location 1 of [fax_heap]. *)
Definition fax_heap_after : heap :=
  <[3%nat := ODict {[ "8 0 obj" := HRef 2%nat ]}]>
    (<[2%nat := ODict {[ "params" := HRef 0%nat; "stream" := HStr "AAE=" ]}]>
       fax_heap).

End Heap.

(** ** The resource catalog *)

Module Catalog.

(** A file system as seen by [Path.glob]: what sits at a path. *)
Inductive node : Type :=
  | File
  | Dir (readable : bool) (names : list string).

Abbreviation filesystem := (gmap string node).

(** A path yielded by [glob]: the directory it was found in and its
    final component. *)
Record Path : Type := MkPath { path_parent : string; path_name : string }.

Definition ends_with (suffix s : string) : bool :=
  let n := String.length s in
  let m := String.length suffix in
  (m <=? n)%nat && String.eqb (String.substring (n - m) m s) suffix.

(** [path.stem]: the final component without its suffix; a name whose
    only dot is the leading one has no suffix. *)
Definition stem (name : string) : string :=
  let n := String.length name in
  if (4 <? n)%nat then String.substring 0 (n - 4) name else name.

(** [datadir.glob("*.pdf")]: the entries of [datadir] whose name ends in
    [.pdf].  pathlib yields nothing when [datadir] is not a directory,
    and nothing when the directory cannot be listed. *)
Definition glob_pdf (fs : filesystem) (datadir : string) : list Path :=
  match fs !! datadir with
  | Some (Dir true names) =>
      MkPath datadir <$> List.filter (ends_with ".pdf") names
  | _ => []
  end.

Section FindResources.

(** The serving layer: its resource type, the server state, the
    [FileResource] constructor and [mcp.add_resource]; and
    [path.resolve()]. *)
Variable resource : Type.
Variable server : Type.
Variable FileResource : string -> string -> string -> exn + resource.
Variable add_resource : server -> resource -> exn + server.
Variable resolve : Path -> string.

Definition of_sum {A} (r : exn + A) : outcome A :=
  match r with inl e => Raise e | inr a => Ok a end.

Definition register (mcp : server) (path : Path) : outcome server :=
  let* r := of_sum (FileResource ("pdf://" +:+ stem (path_name path))
                                 (resolve path)
                                 "application/pdf") in
  of_sum (add_resource mcp r).

Definition find_resources (fs : filesystem) (datadir : string) (mcp : server)
  : outcome server :=
  for_each register (glob_pdf fs datadir) mcp.

End FindResources.

(** A serving layer that keeps resources by URI in a dictionary. *)
Definition table := gmap string (string * string).

Definition table_FileResource (uri path mime : string)
  : exn + (string * string * string) :=
  inr (uri, path, mime).

Definition table_add (t : table) (r : string * string * string) : exn + table :=
  inr (<[r.1.1 := (r.1.2, r.2)]> t).

Definition table_resolve (p : Path) : string :=
  path_parent p +:+ "/" +:+ path_name p.

Definition sample_fs : filesystem :=
  {[ "/srv/pdfs" := Dir true ["a.pdf"; "notes.txt"; "b.pdf"];
     "/srv/empty" := Dir true ["notes.txt"];
     "/srv/locked" := Dir false ["c.pdf"];
     "/srv/file.pdf" := File ]}.

End Catalog.

(** ** Shapes and results, for stating further properties *)

(** The shapes [dump_obj] returns: [None], a dictionary, a list or text. *)
Definition is_plain (v : pyval) : bool :=
  match v with
  | PNone | PDict _ | PList _ | PStr _ => true
  | _ => false
  end.

(** [dump_obj(v)] ends with the outcome [r], a result or an error. *)
Definition yields (objs : gmap Z pyval) (v : pyval) (r : outcome pyval) : Prop :=
  exists fuel, dump_obj fuel objs v = r /\ settled r.

(** Values that hold no stream, at any depth. *)
Fixpoint has_no_stream (v : pyval) : bool :=
  match v with
  | PStream _ => false
  | PDict d => map_fold (fun _ x acc => has_no_stream x && acc) true d
  | PList l => forallb has_no_stream l
  | _ => true
  end.

(** Further sample documents. *)
Module MoreSamples.

(** The first content entry is a stream of non-ASCII bytes. *)
Definition broken_first_doc : PDFDocument :=
  MkDoc ∅ [MkPage [PStream Samples.binary_stream; PStream Samples.plain_stream] ∅].

Definition parse_broken_first (_ : list byte) : exn + PDFDocument :=
  inr broken_first_doc.

(** The second page of [Samples.two_streams_doc] between other pages. *)
Definition other_pages_doc : PDFDocument :=
  MkDoc {[ 10 := PStream Samples.stream_A; 11 := PStream Samples.stream_B ]}
        [MkPage [PStream Samples.binary_stream] ∅; Samples.two_streams_page;
         MkPage [] ∅].

Definition parse_other_pages (_ : list byte) : exn + PDFDocument :=
  inr other_pages_doc.

End MoreSamples.

(** ** The tool entry point *)

Module Tool.

(** What [debug_page] can raise: its own [FileNotFoundError], an error
    of the serving layer while reading, or an error of [dump_page]. *)
Inductive tool_exn (read_error : Type) : Type :=
  | FileNotFoundError (msg : string)
  | ReadError (e : read_error)
  | DumpError (e : exn).
Arguments FileNotFoundError {read_error} _.
Arguments ReadError {read_error} _.
Arguments DumpError {read_error} _.

Inductive tool_outcome (read_error : Type) : Type :=
  | ToolOk (v : pyval)
  | ToolRaise (e : tool_exn read_error)
  | ToolOutOfFuel.
Arguments ToolOk {read_error} _.
Arguments ToolRaise {read_error} _.
Arguments ToolOutOfFuel {read_error}.

Section DebugPage.

Variable parse : list byte -> exn + PDFDocument.
Variable read_error : Type.

(** [await ctx.read_resource(uri)]: the binary contents read, one per
    item, or the error of the serving layer. *)
Variable read_resource : string -> read_error + list (list byte).

Definition of_dump (o : outcome pyval) : tool_outcome read_error :=
  match o with
  | Ok v => ToolOk v
  | Raise e => ToolRaise (DumpError e)
  | OutOfFuel => ToolOutOfFuel
  end.

Definition debug_page (fuel : nat) (uri : string) (page : Z)
  : tool_outcome read_error :=
  match read_resource uri with
  | inl e => ToolRaise (ReadError e)
  | inr resource =>
      match resource with
      | [] => ToolRaise (FileNotFoundError (uri +:+ " not found"))
      | first :: _ => of_dump (dump_page parse fuel first page)
      end
  end.

End DebugPage.

(** A serving layer with one resource of two items. *)
Definition read_sample (uri : string) : unit + list (list byte) :=
  if String.eqb uri "pdf://a" then inr [[x25; x50]%byte; [x00]%byte]
  else if String.eqb uri "pdf://empty" then inr []
  else inl tt.

End Tool.

(** A serving layer that refuses a uri it already has, and a directory
    in which two names have the same stem. *)
Module CatalogSamples.

Definition strict_add (t : gmap string (string * string))
    (r : string * string * string) : exn + gmap string (string * string) :=
  match t !! r.1.1 with
  | Some _ => inl (ValueError "duplicate resource")
  | None => inr (<[r.1.1 := (r.1.2, r.2)]> t)
  end.

Definition odd_fs : Catalog.filesystem :=
  {[ "/srv/odd" := Catalog.Dir true [".pdf"; ".pdf.pdf"; "z.pdf"] ]}.

End CatalogSamples.

(** ** Reading base64 text back *)

Module Base64Decode.

Fixpoint index_of (c : byte) (l : list byte) (i : N) : option N :=
  match l with
  | [] => None
  | x :: l' => if Byte.eqb x c then Some i else index_of c l' (i + 1)
  end.

(** The six bits a base64 character stands for. *)
Definition b64_index (c : byte) : option N := index_of c Bytes.b64_alphabet 0.

Definition byte_of (n : N) : byte :=
  match Byte.of_N n with Some b => b | None => x00%byte end.

Definition decode3 (s1 s2 s3 s4 : N) : list byte :=
  let m := (((s1 * 64 + s2) * 64 + s3) * 64 + s4)%N in
  [byte_of (m / 65536); byte_of ((m / 256) mod 256); byte_of (m mod 256)].

Definition decode2 (s1 s2 s3 : N) : list byte :=
  let m := ((s1 * 64 + s2) * 16 + s3 / 4)%N in
  [byte_of (m / 256); byte_of (m mod 256)].

Definition decode1 (s1 s2 : N) : list byte := [byte_of (s1 * 4 + s2 / 16)].

(** Inverse of [Bytes.b64encode] on padded text. *)
Fixpoint b64decode (cs : list byte) : option (list byte) :=
  match cs with
  | [] => Some []
  | c1 :: c2 :: c3 :: c4 :: rest =>
      match b64_index c1, b64_index c2, b64_index c3, b64_index c4 with
      | Some s1, Some s2, Some s3, Some s4 =>
          match b64decode rest with
          | Some bs => Some (decode3 s1 s2 s3 s4 ++ bs)
          | None => None
          end
      | Some s1, Some s2, Some s3, None =>
          match rest with [] => Some (decode2 s1 s2 s3) | _ => None end
      | Some s1, Some s2, None, None =>
          match rest with [] => Some (decode1 s1 s2) | _ => None end
      | _, _, _, _ => None
      end
  | _ => None
  end.

End Base64Decode.

(** * Properties *)

(** ** Base64 output is ASCII text *)

Module BytesFacts.
Import Bytes.

Lemma b64_alphabet_ascii : forallb is_ascii b64_alphabet = true.
Proof. vm_compute. reflexivity. Qed.

Lemma b64_char_ascii (n : N) : is_ascii (b64_char n) = true.
Proof.
  unfold b64_char.
  destruct (b64_alphabet !! N.to_nat n) as [b|] eqn:E; simpl.
  - pose proof b64_alphabet_ascii as H.
    rewrite forallb_forall in H. apply H.
    apply list_elem_of_In. eapply list_elem_of_lookup_2. exact E.
  - reflexivity.
Qed.

(** Induction three elements at a time, as [b64encode] recurses. *)
Lemma list_ind3 {A} (P : list A -> Prop) :
  P [] -> (forall a, P [a]) -> (forall a b, P [a; b]) ->
  (forall a b c l, P l -> P (a :: b :: c :: l)) ->
  forall l, P l.
Proof.
  intros H0 H1 H2 H3.
  fix IH 1.
  intros [|a [|b [|c l]]]; [apply H0 | apply H1 | apply H2 | apply H3, IH].
Qed.

Lemma b64encode_ascii (bs : list byte) :
  forallb is_ascii (b64encode bs) = true.
Proof.
  induction bs as [|a|a b|a b c l IH] using list_ind3; cbn [b64encode forallb].
  - reflexivity.
  - rewrite !b64_char_ascii. reflexivity.
  - rewrite !b64_char_ascii. reflexivity.
  - rewrite !b64_char_ascii, IH. reflexivity.
Qed.

Lemma decode_b64encode (bs : list byte) :
  decode_ascii (b64encode bs) = Some (string_of_list_byte (b64encode bs)).
Proof. unfold decode_ascii. rewrite b64encode_ascii. reflexivity. Qed.

End BytesFacts.

Lemma b64_text_ok (bs : list byte) : b64_text bs = Ok (base64 bs).
Proof. unfold b64_text. rewrite BytesFacts.decode_b64encode. reflexivity. Qed.

(** ** Fuel: a settled outcome does not change with more fuel *)

Lemma settled_Ok {A} (a : A) : settled (Ok a).
Proof. discriminate. Qed.

Lemma settled_Raise {A} (e : exn) : settled (@Raise A e).
Proof. discriminate. Qed.

#[local] Hint Resolve settled_Ok settled_Raise : core.

Lemma obind_settled {A B} (m : outcome A) (k : A -> outcome B) :
  settled (obind m k) -> settled m.
Proof. destruct m; simpl; intros H; auto. destruct H; reflexivity. Qed.

Lemma obind_mono {A B} (m m' : outcome A) (k k' : A -> outcome B) :
  settled (obind m k) ->
  (settled m -> m' = m) ->
  (forall a, m = Ok a -> settled (k a) -> k' a = k a) ->
  obind m' k' = obind m k.
Proof.
  intros Hs Hm Hk.
  rewrite (Hm (obind_settled _ _ Hs)). destruct m; simpl in *; auto.
Qed.

Lemma for_each_mono {A S} (f g : S -> A -> outcome S) xs :
  (forall acc x, x ∈ xs -> settled (f acc x) -> g acc x = f acc x) ->
  forall acc, settled (for_each f xs acc) ->
  for_each g xs acc = for_each f xs acc.
Proof.
  induction xs as [|x xs IH]; intros Hfg acc Hs; simpl in *; [reflexivity|].
  pose proof (obind_settled _ _ Hs) as Hx.
  rewrite (Hfg acc x) by (auto; left).
  destruct (f acc x) as [acc'| |]; simpl in *; auto.
  apply IH; auto. intros. apply Hfg; auto. right; auto.
Qed.

Lemma resolve1_mono n objs x :
  settled (resolve1 n objs x) ->
  forall m, (n <= m)%nat -> resolve1 m objs x = resolve1 n objs x.
Proof.
  revert x. induction n as [|n IH]; intros x Hs m Hm.
  - destruct x; try (destruct m; reflexivity). simpl in Hs. congruence.
  - destruct m as [|m]; [lia|].
    destruct x; try reflexivity. simpl in *. apply IH; [auto | lia].
Qed.

Lemma dump_obj_mono n objs obj :
  settled (dump_obj n objs obj) ->
  forall m, (n <= m)%nat -> dump_obj m objs obj = dump_obj n objs obj.
Proof.
  revert obj. induction n as [|n IH]; intros obj Hs m Hm.
  - simpl in Hs. congruence.
  - destruct m as [|m]; [lia|].
    assert (Hnm : (n <= m)%nat) by lia.
    destruct obj; try reflexivity; cbn [dump_obj] in *.
    + apply obind_mono; [exact Hs | intros Hd | reflexivity].
      unfold dict_items in *. apply for_each_mono; [|exact Hd].
      intros acc x _ Hx.
      apply obind_mono; [exact Hx | intros Hx' | reflexivity].
      apply IH; auto.
    + apply obind_mono; [exact Hs | intros Hd | reflexivity].
      unfold list_items in *. apply for_each_mono; [|exact Hd].
      intros acc x _ Hx.
      apply obind_mono; [exact Hx | intros Hx' | reflexivity].
      apply IH; auto.
    + apply obind_mono; [exact Hs | intros Hr | intros a _ Ha; apply IH; auto].
      apply resolve1_mono; auto.
Qed.

Lemma dump_obj_mono_Ok n objs obj r :
  dump_obj n objs obj = Ok r ->
  forall m, (n <= m)%nat -> dump_obj m objs obj = Ok r.
Proof.
  intros H m Hm. rewrite <- H. apply dump_obj_mono; [rewrite H; auto | auto].
Qed.

(** ** Loops over dictionary items *)

Lemma for_each_items_Ok (f : pyval -> outcome pyval) (h : pyval -> pyval)
    (l : list (string * pyval)) :
  NoDup l.*1 ->
  (forall kv, kv ∈ l -> f kv.2 = Ok (h kv.2)) ->
  forall acc : gmap string pyval,
  for_each (fun acc kv => let* v := f kv.2 in Ok (<[kv.1 := v]> acc)) l acc
  = Ok (list_to_map (prod_map id h <$> l) ∪ acc).
Proof.
  induction l as [|[k v] l IH]; intros Hnd Hf acc; simpl.
  - rewrite (left_id_L ∅ (∪)). reflexivity.
  - inversion Hnd as [|? ? Hk Hnd']; subst.
    pose proof (Hf (k, v) ltac:(left)) as E. simpl in E. rewrite E. simpl.
    rewrite IH; [|assumption|intros; apply Hf; right; assumption].
    f_equal. rewrite <- insert_union_l. symmetry. apply insert_union_r.
    apply not_elem_of_list_to_map_1.
    rewrite <- list_fmap_compose.
    replace (fst ∘ prod_map id h) with (@fst string pyval); [assumption|].
    reflexivity.
Qed.

Lemma dict_items_Ok (f : pyval -> outcome pyval) (h : pyval -> pyval)
    (d : gmap string pyval) :
  (forall k v, d !! k = Some v -> f v = Ok (h v)) ->
  dict_items f d = Ok (h <$> d).
Proof.
  intros Hf. unfold dict_items.
  rewrite (for_each_items_Ok f h).
  - rewrite (right_id_L ∅ (∪)). f_equal.
    rewrite list_to_map_fmap, list_to_map_to_list. reflexivity.
  - apply NoDup_fst_map_to_list.
  - intros [k v] Hkv. apply elem_of_map_to_list in Hkv. eauto.
Qed.

Lemma list_items_Ok (f : pyval -> outcome pyval) (h : pyval -> pyval)
    (l : list pyval) :
  (forall x, x ∈ l -> f x = Ok (h x)) ->
  list_items f l = Ok (h <$> l).
Proof.
  intros Hf. unfold list_items.
  enough (forall acc, for_each (fun acc x => let* v := f x in Ok (acc ++ [v])) l acc
                      = Ok (acc ++ (h <$> l))) as H by apply H.
  induction l as [|x l IH]; intros acc; simpl.
  - rewrite app_nil_r. reflexivity.
  - rewrite Hf by left. simpl. rewrite IH.
    + rewrite <- app_assoc. reflexivity.
    + intros. apply Hf. right. assumption.
Qed.

(** ** The page walk *)

Section PageWalk.

Variable parse : list byte -> exn + PDFDocument.

Lemma walk_pages_out_of_range fuel objs pagenum pages :
  forall i,
  pagenum <= i \/ i + Z.of_nat (length pages) < pagenum ->
  walk_pages fuel objs pagenum i pages
  = Raise (ValueError "Page out of range").
Proof.
  induction pages as [|page rest IH]; intros i Hi; simpl; [reflexivity|].
  simpl length in Hi.
  destruct (Z.eqb_spec (i + 1) pagenum) as [E|E]; [lia|].
  apply IH. lia.
Qed.

Lemma walk_pages_match fuel objs pages :
  forall k i page,
  pages !! k = Some page ->
  walk_pages fuel objs (i + 1 + Z.of_nat k) i pages
  = dump_matched_page fuel objs page.
Proof.
  induction pages as [|p rest IH]; intros k i page Hk; [discriminate|].
  destruct k as [|k].
  - simpl in Hk. injection Hk as ->. simpl.
    rewrite Z.add_0_r, Z.eqb_refl. reflexivity.
  - rewrite Nat2Z.inj_succ. cbn [walk_pages].
    destruct (Z.eqb_spec (i + 1) (i + 1 + Z.succ (Z.of_nat k))) as [E|E];
      [lia|].
    simpl in Hk. rewrite <- (IH k (i + 1) page Hk). f_equal. lia.
Qed.

Lemma dump_page_match fuel data doc pagenum page :
  parse data = inr doc ->
  1 <= pagenum ->
  doc_pages doc !! Z.to_nat (pagenum - 1) = Some page ->
  dump_page parse fuel data pagenum
  = dump_matched_page fuel (doc_objects doc) page.
Proof.
  intros Hp Hn Hpage. unfold dump_page. rewrite Hp.
  rewrite <- (walk_pages_match fuel _ _ _ 0 _ Hpage). f_equal. lia.
Qed.

(** C2: for a parseable document, a page number that is at most 0 or
    exceeds the number of pages makes [dump_page] raise the
    out-of-range [ValueError]; no result is produced, whatever the
    contents of the document. *)
Theorem dump_page_out_of_range fuel data doc pagenum :
  parse data = inr doc ->
  pagenum <= 0 \/ Z.of_nat (length (doc_pages doc)) < pagenum ->
  dump_page parse fuel data pagenum
  = Raise (ValueError "Page out of range").
Proof.
  intros Hp Hn. unfold dump_page. rewrite Hp.
  apply walk_pages_out_of_range. lia.
Qed.

End PageWalk.

Lemma dump_page_out_of_range_witness :
  dump_page Samples.parse_one_page 0 [] 0
  = Raise (ValueError "Page out of range")
  /\ dump_page Samples.parse_one_page 5 [] 2
     = Raise (ValueError "Page out of range").
Proof.
  split.
  - apply (dump_page_out_of_range Samples.parse_one_page 0 []
             Samples.one_page_doc 0); [reflexivity | left; lia].
  - apply (dump_page_out_of_range Samples.parse_one_page 5 []
             Samples.one_page_doc 2); [reflexivity | right; simpl; lia].
Defined.

(** ** References and unfiltered streams *)

Lemma decoded_text_Ok (s : PDFStream) bs T :
  stream_data s = Some bs -> Bytes.decode_ascii bs = Some T ->
  decoded_text s = Ok T.
Proof. intros Hd Ha. unfold decoded_text. rewrite Hd. simpl. rewrite Ha. reflexivity. Qed.

Lemma dump_stream_unfiltered (s : PDFStream) T :
  stream_filters s = [] -> decoded_text s = Ok T ->
  dump_stream s
  = Ok (PDict {[ obj_key (stream_objid s) := PDict {[ "stream" := PStr T ]} ]}).
Proof.
  intros Hf Ht. unfold dump_stream, stream_inner. rewrite Hf, Ht. simpl.
  rewrite insert_empty. reflexivity.
Qed.

Lemma resolve1_eq n objs x :
  resolve1 n objs x
  = match x with
    | PObjRef objid =>
        match n with
        | O => OutOfFuel
        | S n' => resolve1 n' objs (default PNone (objs !! objid))
        end
    | _ => Ok x
    end.
Proof. destruct n; reflexivity. Qed.

(** Normalizing through a reference is normalizing its target. *)
Lemma dump_obj_resolved objs obj target r n k :
  resolve1 n objs obj = Ok target ->
  dump_obj k objs target = Ok r ->
  forall fuel, (S (Nat.max n k) <= fuel)%nat -> dump_obj fuel objs obj = Ok r.
Proof.
  intros Hr Hd fuel Hfuel.
  destruct fuel as [|fuel]; [lia|].
  assert (Hres : resolve1 fuel objs obj = Ok target).
  { rewrite <- Hr. apply resolve1_mono; [rewrite Hr; auto | lia]. }
  assert (Hdump : dump_obj (S fuel) objs target = Ok r).
  { apply (dump_obj_mono_Ok k); [assumption | lia]. }
  destruct obj;
    try (rewrite resolve1_eq in Hres; injection Hres as <-; exact Hdump).
  cbn [dump_obj]. rewrite Hres. simpl.
  apply (dump_obj_mono_Ok k); [assumption | lia].
Qed.

(** C1: a one-page document whose page has a single unfiltered content
    stream holding ASCII text [T] and no resources dumps, for page 1, to
    [{"contents": {"<objid> 0 obj": {"stream": T}}, "resources": {}}];
    the result is reached with any sufficient amount of fuel. *)
Theorem dump_page_single_unfiltered_stream
    (parse : list byte -> exn + PDFDocument) data doc page c s objid bs T :
  parse data = inr doc ->
  doc_pages doc = [page] ->
  page_contents page = [c] ->
  page_resources page = ∅ ->
  (exists n, resolve1 n (doc_objects doc) c = Ok (PStream s)) ->
  stream_objid s = Some objid ->
  stream_filters s = [] ->
  stream_data s = Some bs ->
  Bytes.decode_ascii bs = Some T ->
  exists n0, forall fuel, (n0 <= fuel)%nat ->
    dump_page parse fuel data 1
    = Ok (PDict {[ "contents" :=
                     PDict {[ str_int objid +:+ " 0 obj" :=
                                PDict {[ "stream" := PStr T ]} ]};
                   "resources" := PDict ∅ ]}).
Proof.
  intros Hparse Hpages Hc Hres [n Hn] Hid Hf Hd Ha.
  exists (S (Nat.max n 1)). intros fuel Hfuel.
  rewrite (dump_page_match parse fuel data doc 1 page Hparse);
    [|lia|rewrite Hpages; reflexivity].
  unfold dump_matched_page. rewrite Hc, Hres. cbn [for_each].
  rewrite (dump_obj_resolved _ _ _ _ n 1%nat Hn
             (dump_stream_unfiltered s T Hf (decoded_text_Ok s bs T Hd Ha))
             fuel Hfuel).
  unfold dict_items. rewrite map_to_list_empty. simpl.
  unfold obj_key. rewrite Hid. reflexivity.
Qed.

Lemma dump_page_single_unfiltered_stream_witness :
  exists n0, forall fuel, (n0 <= fuel)%nat ->
    dump_page Samples.parse_one_page fuel [] 1
    = Ok (PDict {[ "contents" :=
                     PDict {[ "4 0 obj" :=
                                PDict {[ "stream" := PStr "BT /F1 12 Tf ET" ]} ]};
                   "resources" := PDict ∅ ]}).
Proof.
  apply (dump_page_single_unfiltered_stream Samples.parse_one_page []
           Samples.one_page_doc (MkPage [PObjRef 4] ∅) (PObjRef 4)
           Samples.plain_stream 4 Samples.hello "BT /F1 12 Tf ET");
    try reflexivity.
  exists 1%nat. reflexivity.
Defined.

(** ** Normalizing a reference to a binary blob *)

(** C5: when [ref] resolves to the binary blob [b], normalizing
    [{k: ref}] gives [{k: base64(b)}], which is also what normalizing
    [{k: b}] gives. *)
Theorem dump_obj_dict_ref_to_bytes objs (k : string) (ref : Z) (b : list byte) :
  (exists n, resolve1 n objs (PObjRef ref) = Ok (PBytes b)) ->
  exists n0, forall fuel, (n0 <= fuel)%nat ->
    dump_obj fuel objs (PDict {[ k := PObjRef ref ]})
    = Ok (PDict {[ k := PStr (base64 b) ]})
    /\ dump_obj fuel objs (PDict {[ k := PBytes b ]})
       = Ok (PDict {[ k := PStr (base64 b) ]}).
Proof.
  intros [n Hn]. exists (S (S (Nat.max n 1))). intros fuel Hfuel.
  destruct fuel as [|fuel]; [lia|].
  assert (Hb : dump_obj 1 objs (PBytes b) = Ok (PStr (base64 b))).
  { simpl. rewrite b64_text_ok. reflexivity. }
  cbn [dump_obj]. split.
  - rewrite (dict_items_Ok _ (fun _ => PStr (base64 b))).
    + simpl. rewrite map_fmap_singleton. reflexivity.
    + intros k' v Hv. apply lookup_singleton_Some in Hv as [_ <-].
      apply (dump_obj_resolved _ _ _ _ n 1%nat Hn Hb). lia.
  - rewrite (dict_items_Ok _ (fun _ => PStr (base64 b))).
    + simpl. rewrite map_fmap_singleton. reflexivity.
    + intros k' v Hv. apply lookup_singleton_Some in Hv as [_ <-].
      apply (dump_obj_mono_Ok 1); [exact Hb | lia].
Qed.

Lemma dump_obj_dict_ref_to_bytes_witness :
  exists n0, forall fuel, (n0 <= fuel)%nat ->
    dump_obj fuel {[ 7 := PObjRef 9; 9 := PBytes [x00; xff; xfe]%byte ]}
      (PDict {[ "k" := PObjRef 7 ]})
    = Ok (PDict {[ "k" := PStr "AP/+" ]})
    /\ dump_obj fuel {[ 7 := PObjRef 9; 9 := PBytes [x00; xff; xfe]%byte ]}
         (PDict {[ "k" := PBytes [x00; xff; xfe]%byte ]})
       = Ok (PDict {[ "k" := PStr "AP/+" ]}).
Proof.
  apply (dump_obj_dict_ref_to_bytes
           {[ 7 := PObjRef 9; 9 := PBytes [x00; xff; xfe]%byte ]}
           "k" 7 [x00; xff; xfe]%byte).
  exists 2%nat. reflexivity.
Defined.

(** ** Normalized values are fixed points *)

Lemma height_dict_lookup (d : gmap string pyval) k x :
  d !! k = Some x -> (height x < height (PDict d))%nat.
Proof.
  intros Hk. cbn [height].
  rewrite (map_fold_delete_L _ _ k x d); [lia | intros; lia | exact Hk].
Qed.

Lemma height_list_elem (l : list pyval) x :
  x ∈ l -> (height x < height (PList l))%nat.
Proof.
  intros Hx. cbn [height].
  induction Hx as [x l|x y l _ IH]; simpl; lia.
Qed.

Lemma is_normalized_dict_lookup (d : gmap string pyval) k x :
  is_normalized (PDict d) = true -> d !! k = Some x -> is_normalized x = true.
Proof.
  intros Hd Hk. cbn [is_normalized] in Hd.
  rewrite (map_fold_delete_L _ _ k x d) in Hd; [| |exact Hk].
  - apply andb_true_iff in Hd. tauto.
  - intros. rewrite !andb_assoc. f_equal. apply andb_comm.
Qed.

Lemma is_normalized_list_elem (l : list pyval) x :
  is_normalized (PList l) = true -> x ∈ l -> is_normalized x = true.
Proof.
  intros Hl Hx. cbn [is_normalized] in Hl.
  rewrite forallb_forall in Hl. apply Hl, list_elem_of_In, Hx.
Qed.

Lemma dump_obj_normalized objs n :
  forall v, (height v <= n)%nat -> is_normalized v = true ->
  dump_obj n objs v = Ok v.
Proof.
  induction n as [|n IH]; intros v Hh Hv.
  - destruct v; cbn [height] in Hh; lia.
  - destruct v; try discriminate; cbn [dump_obj]; try reflexivity.
    + rewrite (dict_items_Ok _ id).
      * simpl. rewrite map_fmap_id. reflexivity.
      * intros k x Hk. apply (IH x).
        -- pose proof (height_dict_lookup d k x Hk). lia.
        -- eapply is_normalized_dict_lookup; eauto.
    + rewrite (list_items_Ok _ id).
      * simpl. rewrite list_fmap_id. reflexivity.
      * intros x Hx. apply (IH x).
        -- pose proof (height_list_elem l x Hx). lia.
        -- eapply is_normalized_list_elem; eauto.
Qed.

(** C6: on a value that is already fully normalized ([None], text, and
    dictionaries and lists built from these) [dump_obj] returns the value
    itself, whatever the object table. *)
Theorem dump_obj_identity_on_normalized objs v :
  is_normalized v = true ->
  exists n0, forall fuel, (n0 <= fuel)%nat -> dump_obj fuel objs v = Ok v.
Proof.
  intros Hv. exists (height v). intros fuel Hfuel.
  apply dump_obj_normalized; assumption.
Qed.

Lemma dump_obj_identity_on_normalized_witness :
  exists n0, forall fuel, (n0 <= fuel)%nat ->
    dump_obj fuel ∅
      (PDict {[ "a" := PList [PStr "x"; PNone]; "b" := PDict ∅ ]})
    = Ok (PDict {[ "a" := PList [PStr "x"; PNone]; "b" := PDict ∅ ]}).
Proof.
  apply (dump_obj_identity_on_normalized ∅
           (PDict {[ "a" := PList [PStr "x"; PNone]; "b" := PDict ∅ ]})).
  vm_compute. reflexivity.
Defined.

(** Outside that form the dumper need not be the identity: a rendered
    stream keeps the raw filter parameters, which a second pass renders
    again. *)
Example dump_obj_image_not_fixed :
  dump_obj 3 ∅ (PStream FilterSamples.unknown_then_flate)
  = Ok (PDict {[ "3 0 obj" :=
                   PDict {[ "params" := PDict {[ "Predictor" := PInt 12 ]};
                            "stream" := PStr "0 0 m" ]} ]})
  /\ dump_obj 4 ∅
       (PDict {[ "3 0 obj" :=
                   PDict {[ "params" := PDict {[ "Predictor" := PInt 12 ]};
                            "stream" := PStr "0 0 m" ]} ]})
     = Ok (PDict {[ "3 0 obj" :=
                      PDict {[ "params" := PDict {[ "Predictor" := PStr "12" ]};
                               "stream" := PStr "0 0 m" ]} ]}).
Proof. split; vm_compute; reflexivity. Qed.

(** ** What a successful loop over items says about each item *)

Lemma for_each_items_inv (f : pyval -> outcome pyval)
    (l : list (string * pyval)) :
  forall (acc rs : gmap string pyval),
  for_each (fun acc kv => let* v := f kv.2 in Ok (<[kv.1 := v]> acc)) l acc
  = Ok rs ->
  forall kv, kv ∈ l -> exists r, f kv.2 = Ok r.
Proof.
  induction l as [|[k v] l IH]; intros acc rs H kv Hkv.
  - inversion Hkv.
  - simpl in H. destruct (f v) as [r| |] eqn:E; try discriminate.
    simpl in H. apply elem_of_cons in Hkv as [->|Hkv].
    + exists r. exact E.
    + eapply IH; eauto.
Qed.

Lemma dict_items_inv (f : pyval -> outcome pyval) (d rs : gmap string pyval) :
  dict_items f d = Ok rs ->
  rs = result_of f <$> d
  /\ forall k v, d !! k = Some v -> f v = Ok (result_of f v).
Proof.
  intros H.
  assert (Hall : forall k v, d !! k = Some v -> f v = Ok (result_of f v)).
  { intros k v Hk. unfold dict_items in H.
    destruct (for_each_items_inv f _ _ _ H (k, v)) as [r Hr].
    - apply elem_of_map_to_list. exact Hk.
    - unfold result_of. simpl in Hr. rewrite Hr. reflexivity. }
  split; [|exact Hall].
  rewrite (dict_items_Ok f (result_of f) d Hall) in H. congruence.
Qed.

Lemma dict_items_lookup (f : pyval -> outcome pyval) (d rs : gmap string pyval) :
  dict_items f d = Ok rs ->
  dom rs = dom d
  /\ forall k v, d !! k = Some v -> exists r, f v = Ok r /\ rs !! k = Some r.
Proof.
  intros H. destruct (dict_items_inv f d rs H) as [-> Hall]. split.
  - apply dom_fmap_L.
  - intros k v Hk. exists (result_of f v). split; [eauto|].
    rewrite lookup_fmap, Hk. reflexivity.
Qed.

(** ** Content streams of the matched page *)

Section MatchedPage.

Variable parse : list byte -> exn + PDFDocument.



End MatchedPage.




(** ** The filter loop of [dump_stream] *)

Lemma set_params_step (o o1 : option pyval) (t t1 : pyval)
    (acc : gmap string pyval) :
  <["stream" := t]> (set_params o (<["stream" := t1]> (set_params o1 acc)))
  = <["stream" := t]>
      (set_params (match o with Some q => Some q | None => o1 end) acc).
Proof.
  destruct o as [q|], o1 as [q1|]; simpl.
  - rewrite (insert_insert_ne _ "params" "stream") by discriminate.
    rewrite insert_insert_eq. rewrite insert_insert_eq. reflexivity.
  - rewrite (insert_insert_ne _ "params" "stream") by discriminate.
    rewrite insert_insert_eq. reflexivity.
  - rewrite insert_insert_eq. reflexivity.
  - rewrite insert_insert_eq. reflexivity.
Qed.

Lemma filter_step_inv (s : PDFStream) acc f p acc1 :
  filter_step s acc (f, p) = Ok acc1 ->
  exists t, stream_text s f = Ok t
    /\ acc1 = <["stream" := PStr t]>
                (set_params (if is_flate f then None else Some p) acc).
Proof.
  unfold filter_step, stream_text. destruct (is_flate f); intros H.
  - destruct (decoded_text s) as [t| |]; try discriminate.
    injection H as <-. eauto.
  - destruct (b64_text (stream_rawdata s)) as [t| |]; try discriminate.
    injection H as <-. eauto.
Qed.

(** A successful loop stores the text of the last pair under "stream"
    and the parameters of the last unrecognized pair under "params". *)
Lemma filter_loop_inv (s : PDFStream) fs :
  forall acc r,
  for_each (filter_step s) fs acc = Ok r ->
  match last fs with
  | None => r = acc
  | Some (f, _) =>
      exists t, stream_text s f = Ok t
        /\ r = <["stream" := PStr t]> (set_params (last_unrecognized fs) acc)
  end.
Proof.
  induction fs as [|[f p] rest IH]; intros acc r H; cbn [for_each] in H.
  - injection H as <-. reflexivity.
  - destruct (filter_step s acc (f, p)) as [acc1| |] eqn:E; try discriminate.
    cbn [obind] in H. apply filter_step_inv in E as (t1 & Ht1 & ->).
    specialize (IH _ _ H). rewrite last_cons. cbn [last_unrecognized].
    destruct (last rest) as [[f' p']|] eqn:El.
    + destruct IH as (t & Ht & ->). exists t. split; [exact Ht|].
      apply set_params_step.
    + subst r. exists t1. split; [exact Ht1|].
      apply last_None in El as ->. reflexivity.
Qed.

(** When the decoded data is ASCII text the loop cannot fail. *)
Lemma filter_loop_total (s : PDFStream) T fs :
  decoded_text s = Ok T ->
  forall acc, exists r, for_each (filter_step s) fs acc = Ok r.
Proof.
  intros HT. induction fs as [|[f p] rest IH]; intros acc;
    cbn [for_each filter_step].
  - eauto.
  - destruct (is_flate f).
    + rewrite HT. simpl. apply IH.
    + rewrite b64_text_ok. simpl. apply IH.
Qed.

Lemma dump_stream_inv (s : PDFStream) r :
  dump_stream s = Ok r ->
  exists inner,
    stream_inner s = Ok inner
    /\ r = PDict {[ obj_key (stream_objid s) := PDict inner ]}.
Proof.
  unfold dump_stream. destruct (stream_inner s) as [inner| |]; try discriminate.
  simpl. intros H. injection H as <-. eauto.
Qed.

Lemma stream_inner_filtered (s : PDFStream) :
  stream_filters s <> [] ->
  stream_inner s = for_each (filter_step s) (stream_filters s) ∅.
Proof. unfold stream_inner. destruct (stream_filters s); [congruence | reflexivity]. Qed.

Lemma last_unrecognized_Some fs :
  is_Some (last_unrecognized fs)
  <-> exists f p, (f, p) ∈ fs /\ is_flate f = false.
Proof.
  induction fs as [|[f p] rest IH]; cbn [last_unrecognized].
  - split; [intros [? ?]; discriminate | intros (f & p & H & _); inversion H].
  - destruct (last_unrecognized rest) as [q|].
    + split; [|eauto]. intros _.
      destruct (proj1 IH (mk_is_Some _ _ eq_refl)) as (f' & p' & Hin & Hf).
      exists f', p'. split; [right; exact Hin | exact Hf].
    + destruct (is_flate f) eqn:Ef.
      * split; [intros [? ?]; discriminate|].
        intros (f' & p' & Hin & Hf). apply elem_of_cons in Hin as [Heq|Hin].
        -- injection Heq as -> ->. congruence.
        -- apply IH. eauto.
      * split; [|eauto]. intros _. exists f, p. split; [left | exact Ef].
Qed.

Lemma last_unrecognized_app fs gs :
  last_unrecognized (fs ++ gs)
  = match last_unrecognized gs with
    | Some q => Some q
    | None => last_unrecognized fs
    end.
Proof.
  induction fs as [|[f p] fs IH]; simpl.
  - destruct (last_unrecognized gs); reflexivity.
  - rewrite IH. destruct (last_unrecognized gs); reflexivity.
Qed.

Lemma last_unrecognized_all_flate fs :
  Forall (fun fp => is_flate fp.1 = true) fs -> last_unrecognized fs = None.
Proof.
  induction 1 as [|[f p] fs Hf _ IH]; simpl; [reflexivity|].
  simpl in Hf. rewrite IH, Hf. reflexivity.
Qed.

Lemma set_params_insert_stream o (t : pyval) (acc : gmap string pyval) :
  set_params o (<["stream" := t]> acc) = <["stream" := t]> (set_params o acc).
Proof.
  destruct o; simpl; [|reflexivity].
  apply insert_insert_ne. discriminate.
Qed.

(** The rendering of a stream whose filters end with the pair [(f, p)]. *)
Lemma dump_stream_snoc (s : PDFStream) fs f p r :
  stream_filters s = fs ++ [(f, p)] ->
  dump_stream s = Ok r ->
  exists t,
    stream_text s f = Ok t
    /\ r = PDict {[ obj_key (stream_objid s) :=
                      PDict (<["stream" := PStr t]>
                               (set_params (if is_flate f
                                            then last_unrecognized fs
                                            else Some p) ∅)) ]}.
Proof.
  intros Hfs Hr.
  apply dump_stream_inv in Hr as (inner & Hin & ->).
  rewrite stream_inner_filtered in Hin
    by (rewrite Hfs; destruct fs; discriminate).
  apply filter_loop_inv in Hin. rewrite Hfs, last_snoc in Hin.
  destruct Hin as (t & Ht & ->). exists t. split; [exact Ht|].
  rewrite last_unrecognized_app. simpl.
  destruct (is_flate f); reflexivity.
Qed.



(** ** Several filters: what the last pair decides *)




(** A second way in which the earlier pairs matter: a deflate-style pair
    before the last one makes the rendering fail on data that is not
    ASCII, although the last pair alone renders. *)
Lemma dump_stream_earlier_pair_can_raise :
  dump_stream FilterSamples.flate_binary_then_unknown = Raise UnicodeDecodeError
  /\ dump_stream (with_filters FilterSamples.flate_binary_then_unknown
                    [(FilterSamples.ascii85, FilterSamples.parms2)])
     = Ok (PDict {[ "3 0 obj" :=
                      PDict {[ "params" := FilterSamples.parms2;
                               "stream" := PStr "eJz/" ]} ]}).
Proof. split; vm_compute; reflexivity. Qed.

(** ** The dumper leaves existing objects alone *)

Module HeapFacts.
Import Heap.

Lemma post_weaken {A} (h0 h1 : heap) (Q Q' : A -> heap -> Prop) r :
  post h1 Q r -> h0 ⊆ h1 ->
  (forall a h', h1 ⊆ h' -> Q a h' -> Q' a h') ->
  post h0 Q' r.
Proof.
  intros Hr H01 HQ. destruct r as [a h'|e h'| |]; simpl in *; auto.
  - destruct Hr as [H1 Hq]. split; [etrans; eauto | auto].
  - etrans; eauto.
Qed.

Lemma post_bind {A B} (h0 h : heap) (m : M A) (k : A -> M B)
    (Q : A -> heap -> Prop) (R : B -> heap -> Prop) :
  post h0 Q (m h) ->
  (forall a h1, h0 ⊆ h1 -> Q a h1 -> post h0 R (k a h1)) ->
  post h0 R (bind m k h).
Proof.
  intros Hm Hk. unfold bind.
  destruct (m h) as [a h1|e h1| |]; simpl in *; auto.
  destruct Hm; auto.
Qed.

Lemma post_ret {A} (h0 h : heap) (a : A) (Q : A -> heap -> Prop) :
  h0 ⊆ h -> Q a h -> post h0 Q (ret a h).
Proof. intros; simpl; auto. Qed.

Lemma post_lift {A} (h0 h : heap) (o : outcome A) (Q : A -> heap -> Prop) :
  h0 ⊆ h -> (forall a, o = Ok a -> Q a h) -> post h0 Q (lift o h).
Proof. intros H0 HQ. destruct o; simpl; auto. Qed.

Lemma fresh_lookup (h : heap) : h !! fresh (dom h) = None.
Proof. apply not_elem_of_dom, is_fresh. Qed.

Lemma post_alloc (h0 h : heap) (o : hobj) (Q : loc -> heap -> Prop) :
  h0 ⊆ h ->
  (forall l, h !! l = None -> Q l (<[l := o]> h)) ->
  post h0 Q (alloc o h).
Proof.
  intros H0 HQ. unfold alloc. simpl. pose proof (fresh_lookup h) as Hf.
  split; [|auto]. etrans; [exact H0|]. apply insert_subseteq. exact Hf.
Qed.

Lemma post_setitem (h0 h : heap) l k v (Q : unit -> heap -> Prop) :
  h0 ⊆ h -> h0 !! l = None ->
  (forall d, h !! l = Some (ODict d) ->
     Q tt (<[l := ODict (<[k := v]> d)]> h)) ->
  post h0 Q (setitem l k v h).
Proof.
  intros H0 Hl HQ. unfold setitem.
  destruct (h !! l) as [[d|xs|s]|] eqn:E; simpl; auto.
  split; [|auto]. apply insert_subseteq_r; assumption.
Qed.

Lemma post_load (h0 h : heap) l (Q : hobj -> heap -> Prop) :
  h0 ⊆ h -> (forall o, h !! l = Some o -> Q o h) -> post h0 Q (load l h).
Proof. intros H0 HQ. unfold load. destruct (h !! l) eqn:E; simpl; auto. Qed.

Lemma built_mono sp (h0 h1 h2 h3 : heap) v :
  built sp h1 h2 v -> h0 ⊆ h1 -> h2 ⊆ h3 -> built sp h0 h3 v.
Proof.
  intros Hb H01 H23.
  induction Hb as [v Hv|l d Hl Hd _ IH|l xs Hl Hx _ IH
                  |l key lr inner Hsp Hl Hd Hlr Hi He].
  - apply built_atom. exact Hv.
  - eapply built_dict; eauto using lookup_weaken, lookup_weaken_None.
  - eapply built_list; eauto using lookup_weaken, lookup_weaken_None.
  - eapply built_record; eauto using lookup_weaken, lookup_weaken_None.
Qed.

(** The filter loop only assigns into [result], which the starting heap
    does not have. *)
Lemma filter_step_spec (h0 h : heap) (s : stream_of hval) lr fp :
  h0 ⊆ h -> h0 !! lr = None ->
  (exists inner, h !! lr = Some (ODict inner) /\ record_entries inner) ->
  post h0 (fun _ h' => exists inner,
             h' !! lr = Some (ODict inner) /\ record_entries inner)
       (filter_step s lr fp h).
Proof.
  intros H0 Hlr (inner & Hin & Hok). destruct fp as [f params].
  unfold filter_step. destruct (Heap.is_flate f).
  - eapply post_bind; [apply post_lift with (Q := fun _ h1 => h1 = h); auto|].
    intros t h1 _ ->. apply post_setitem; auto.
    intros d Hd. rewrite Hin in Hd. injection Hd as <-.
    eexists. rewrite lookup_insert_eq. split; [reflexivity|].
    intros k v Hk. apply lookup_insert_Some in Hk as [[_ <-]|[_ Hk]]; eauto.
  - eapply post_bind.
    { apply post_setitem with
        (Q := fun _ h1 => exists inner,
                h1 !! lr = Some (ODict inner) /\ record_entries inner); auto.
      intros d Hd. rewrite Hin in Hd. injection Hd as <-.
      eexists. rewrite lookup_insert_eq. split; [reflexivity|].
      intros k v Hk. apply lookup_insert_Some in Hk as [[<- _]|[_ Hk]]; eauto. }
    intros _ h1 H1 (inner1 & Hin1 & Hok1).
    eapply post_bind; [apply post_lift with (Q := fun _ h2 => h2 = h1); auto|].
    intros t h2 _ ->. apply post_setitem; auto.
    intros d Hd. rewrite Hin1 in Hd. injection Hd as <-.
    eexists. rewrite lookup_insert_eq. split; [reflexivity|].
    intros k v Hk. apply lookup_insert_Some in Hk as [[_ <-]|[_ Hk]]; eauto.
Qed.

Lemma filter_loop_spec (h0 : heap) (s : stream_of hval) lr fs :
  forall h,
  h0 ⊆ h -> h0 !! lr = None ->
  (exists inner, h !! lr = Some (ODict inner) /\ record_entries inner) ->
  post h0 (fun _ h' => exists inner,
             h' !! lr = Some (ODict inner) /\ record_entries inner)
       (for_each_h (filter_step s lr) fs h).
Proof.
  induction fs as [|fp fs IH]; intros h H0 Hlr Hin; cbn [for_each_h].
  - apply post_ret; auto.
  - eapply post_bind; [apply filter_step_spec; auto|].
    intros u h1 H1 Hin1. apply IH; auto.
Qed.

Lemma dump_stream_spec (h : heap) (s : stream_of hval) :
  post h (fun r h' => built true h h' r) (Heap.dump_stream s h).
Proof.
  unfold Heap.dump_stream.
  eapply post_bind.
  { apply post_alloc with
      (Q := fun lr h1 => h !! lr = None /\ h1 !! lr = Some (ODict ∅));
      [reflexivity|].
    intros l Hl. rewrite lookup_insert_eq. auto. }
  intros lr h1 H1 [Hlr Hh1].
  assert (Hstart : exists inner,
             h1 !! lr = Some (ODict inner) /\ record_entries inner).
  { exists ∅. split; [exact Hh1|]. intros k v Hk. rewrite lookup_empty in Hk.
    discriminate. }
  eapply post_bind with
    (Q := fun _ h2 => exists inner,
            h2 !! lr = Some (ODict inner) /\ record_entries inner).
  { destruct (stream_filters s) as [|fp fs] eqn:Efs.
    - eapply post_bind;
        [apply post_lift with (Q := fun _ h2 => h2 = h1); auto|].
      intros t h2 _ ->. apply post_setitem; auto.
      intros d Hd. rewrite Hh1 in Hd. injection Hd as <-.
      eexists. rewrite lookup_insert_eq. split; [reflexivity|].
      intros k v Hk. apply lookup_insert_Some in Hk as [[_ <-]|[_ Hk]]; eauto.
      rewrite lookup_empty in Hk. discriminate.
    - apply filter_loop_spec; auto. }
  intros _ h2 H2 (inner & Hin & Hok).
  eapply post_bind.
  { apply post_alloc with
      (Q := fun l h3 =>
              h2 !! l = None
              /\ h3 = <[l := ODict {[ obj_key (stream_objid s) := HRef lr ]}]> h2);
      auto. }
  intros l h3 H3 [Hl ->]. apply post_ret; [exact H3|].
  assert (l <> lr) by congruence.
  eapply built_record; eauto.
  - eapply lookup_weaken_None; eauto.
  - rewrite lookup_insert_eq. reflexivity.
  - rewrite lookup_insert_ne by assumption. exact Hin.
Qed.

(** Items of a comprehension. *)
Lemma dict_items_spec (f : hval -> M hval) (h0 : heap) kvs :
  (forall v h, post h (fun r h' => built true h h' r) (f v h)) ->
  forall acc h,
  h0 ⊆ h ->
  (forall k v, acc !! k = Some v -> built true h0 h v) ->
  post h0 (fun d' h' => forall k v, d' !! k = Some v -> built true h0 h' v)
       (Heap.dict_items f kvs acc h).
Proof.
  intros Hf. induction kvs as [|[k0 v0] kvs IH]; intros acc h H0 Hacc;
    cbn [Heap.dict_items].
  - apply post_ret; auto.
  - eapply post_bind.
    { eapply post_weaken with (Q' := fun r h1 => h ⊆ h1 /\ built true h0 h1 r);
        [apply Hf | exact H0 |].
      intros r h1 Hh1 Hb. split; [exact Hh1|].
      eapply built_mono; [exact Hb | exact H0 | reflexivity]. }
    intros r h1 H1 [Hh1 Hb]. apply IH; [exact H1|].
    intros k v Hk. simpl in Hk.
    apply lookup_insert_Some in Hk as [[_ <-]|[_ Hk]]; [exact Hb|].
    eapply built_mono; [eapply Hacc; exact Hk | reflexivity | exact Hh1].
Qed.

Lemma list_items_spec (f : hval -> M hval) (h0 : heap) xs :
  (forall v h, post h (fun r h' => built true h h' r) (f v h)) ->
  forall acc h,
  h0 ⊆ h ->
  (forall v, v ∈ acc -> built true h0 h v) ->
  post h0 (fun xs' h' => forall v, v ∈ xs' -> built true h0 h' v)
       (Heap.list_items f xs acc h).
Proof.
  intros Hf. induction xs as [|x xs IH]; intros acc h H0 Hacc;
    cbn [Heap.list_items].
  - apply post_ret; auto.
  - eapply post_bind.
    { eapply post_weaken with (Q' := fun r h1 => h ⊆ h1 /\ built true h0 h1 r);
        [apply Hf | exact H0 |].
      intros r h1 Hh1 Hb. split; [exact Hh1|].
      eapply built_mono; [exact Hb | exact H0 | reflexivity]. }
    intros r h1 H1 [Hh1 Hb]. apply IH; [exact H1|].
    intros v Hv. apply elem_of_app in Hv as [Hv|Hv].
    + eapply built_mono; [apply Hacc; exact Hv | reflexivity | exact Hh1].
    + apply list_elem_of_singleton in Hv as ->. exact Hb.
Qed.

Lemma dump_obj_spec (objs : gmap Z hval) fuel :
  forall obj h,
  post h (fun r h' => built true h h' r) (Heap.dump_obj fuel objs obj h).
Proof.
  induction fuel as [|fuel IH]; intros obj h; [exact I|].
  destruct obj; cbn [Heap.dump_obj];
    try (apply post_ret; [reflexivity | apply built_atom; discriminate]).
  - eapply post_bind;
      [apply post_lift with (Q := fun _ h1 => h1 = h); auto|].
    intros t h1 _ ->. apply post_ret; [reflexivity|].
    apply built_atom; discriminate.
  - eapply post_bind;
      [apply post_lift with (Q := fun _ h1 => h1 = h); auto|].
    intros target h1 _ ->. apply IH.
  - eapply post_bind;
      [apply post_load with (Q := fun _ h1 => h1 = h); auto|].
    intros o h1 _ ->. destruct o as [d|xs|s].
    + eapply post_bind.
      { apply dict_items_spec; [exact IH | reflexivity |].
        intros k v Hk. rewrite lookup_empty in Hk. discriminate. }
      intros d' h1 H1 Hd'.
      eapply post_bind.
      { apply post_alloc with
          (Q := fun l' h2 => h1 !! l' = None /\ h2 = <[l' := ODict d']> h1);
          auto. }
      intros l' h2 H2 [Hl ->]. apply post_ret; [exact H2|].
      eapply built_dict.
      * eapply lookup_weaken_None; eauto.
      * apply lookup_insert_eq.
      * intros k v Hk. eapply built_mono; [eapply Hd'; eauto | reflexivity |].
        apply insert_subseteq. exact Hl.
    + eapply post_bind.
      { apply list_items_spec; [exact IH | reflexivity |].
        intros v Hv. inversion Hv. }
      intros xs' h1 H1 Hxs'.
      eapply post_bind.
      { apply post_alloc with
          (Q := fun l' h2 => h1 !! l' = None /\ h2 = <[l' := OList xs']> h1);
          auto. }
      intros l' h2 H2 [Hl ->]. apply post_ret; [exact H2|].
      eapply built_list.
      * eapply lookup_weaken_None; eauto.
      * apply lookup_insert_eq.
      * intros v Hv. eapply built_mono; [eapply Hxs'; eauto | reflexivity |].
        apply insert_subseteq. exact Hl.
    + apply dump_stream_spec.
Qed.

End HeapFacts.

(** ** On a closed heap the dumper does not get stuck *)

Module HeapClosed.
Import Heap.

Lemma closed_val_dom (h h' : heap) v :
  closed_val h v -> dom h ⊆ dom h' -> closed_val h' v.
Proof.
  destruct v; simpl; auto.
  intros H Hd. apply elem_of_dom, Hd, elem_of_dom, H.
Qed.

Lemma closed_obj_dom (h h' : heap) o :
  closed_obj h o -> dom h ⊆ dom h' -> closed_obj h' o.
Proof.
  destruct o; simpl; intros H Hd; intros; eapply closed_val_dom; eauto.
Qed.

Lemma closed_objs_dom (h h' : heap) objs :
  closed_objs h objs -> dom h ⊆ dom h' -> closed_objs h' objs.
Proof. intros H Hd objid v Hv. eapply closed_val_dom; eauto. Qed.

Lemma grown_refl (h : heap) : closed_heap h -> grown h h.
Proof. intros H. split; [reflexivity | exact H]. Qed.

Lemma grown_trans (h0 h1 h2 : heap) :
  dom h0 ⊆ dom h1 -> grown h1 h2 -> grown h0 h2.
Proof. intros H01 [H12 Hc]. split; [etrans; eauto | exact Hc]. Qed.

Lemma safe_bind {A B} (m : M A) (k : A -> M B) (h : heap)
    (Q : A -> heap -> Prop) (R : B -> heap -> Prop) :
  safe Q (m h) -> (forall a h1, Q a h1 -> safe R (k a h1)) ->
  safe R (bind m k h).
Proof.
  intros Hm Hk. unfold bind. destruct (m h); simpl in *; auto.
Qed.

Lemma safe_lift {A} (o : outcome A) (h : heap) (Q : A -> heap -> Prop) :
  (forall a, o = Ok a -> Q a h) -> safe Q (lift o h).
Proof. intros HQ. destruct o; simpl; auto. Qed.

Lemma alloc_safe (h : heap) (o : hobj) :
  closed_heap h -> closed_obj h o ->
  safe (fun l h' => grown h h' /\ h' !! l = Some o /\ h !! l = None)
       (alloc o h).
Proof.
  intros Hc Ho. unfold alloc. simpl.
  pose proof (HeapFacts.fresh_lookup h) as Hf.
  assert (Hd : dom h ⊆ dom (<[fresh (dom h) := o]> h)).
  { rewrite dom_insert_L. set_solver. }
  split; [split; [exact Hd|] | split; [apply lookup_insert_eq | exact Hf]].
  intros l0 o0 Hl0. apply lookup_insert_Some in Hl0 as [[_ <-]|[_ Hl0]].
  - eapply closed_obj_dom; eauto.
  - eapply closed_obj_dom; [eapply Hc; eauto | exact Hd].
Qed.

Lemma setitem_safe (h : heap) l k v d :
  closed_heap h -> h !! l = Some (ODict d) -> closed_val h v ->
  safe (fun _ h' => grown h h' /\ h' !! l = Some (ODict (<[k := v]> d)))
       (setitem l k v h).
Proof.
  intros Hc Hl Hv. unfold setitem. rewrite Hl. simpl.
  assert (Hd : dom h ⊆ dom (<[l := ODict (<[k := v]> d)]> h)).
  { rewrite dom_insert_L. set_solver. }
  split; [split; [exact Hd|] | apply lookup_insert_eq].
  intros l0 o0 Hl0. apply lookup_insert_Some in Hl0 as [[_ <-]|[_ Hl0]].
  - intros k' v' Hk'. apply lookup_insert_Some in Hk' as [[_ <-]|[_ Hk']].
    + eapply closed_val_dom; eauto.
    + eapply closed_val_dom; [eapply (Hc l (ODict d)); eauto | exact Hd].
  - eapply closed_obj_dom; [eapply Hc; eauto | exact Hd].
Qed.

Lemma safe_weaken {A} (Q Q' : A -> heap -> Prop) (r : hresult A) :
  safe Q r -> (forall a h, Q a h -> Q' a h) -> safe Q' r.
Proof. intros Hr HQ. destruct r; simpl in *; auto. Qed.

Lemma filter_step_safe (s : stream_of hval) lr f p (h : heap) :
  closed_heap h -> (exists inner, h !! lr = Some (ODict inner)) ->
  closed_val h p ->
  safe (fun _ h' => grown h h' /\ exists inner, h' !! lr = Some (ODict inner))
       (filter_step s lr (f, p) h).
Proof.
  intros Hc [inner Hin] Hp. unfold filter_step. destruct (Heap.is_flate f).
  - eapply safe_bind;
      [apply safe_lift with (Q := fun _ h1 => h1 = h); auto|].
    intros t h1 ->.
    eapply safe_weaken; [eapply setitem_safe; eauto; exact I|].
    intros u h1 [Hg Hl]. eauto.
  - eapply safe_bind; [eapply setitem_safe; eauto|].
    intros u h1 [[Hd1 Hc1] Hl1].
    eapply safe_bind;
      [apply safe_lift with (Q := fun _ h2 => h2 = h1); auto|].
    intros t h2 ->.
    eapply safe_weaken; [eapply setitem_safe; eauto; exact I|].
    intros u' h2 [Hg2 Hl2]. split; [|eauto].
    eapply grown_trans; eauto.
Qed.

Lemma filter_loop_safe (s : stream_of hval) lr fs :
  forall h : heap,
  closed_heap h -> (exists inner, h !! lr = Some (ODict inner)) ->
  (forall f p, (f, p) ∈ fs -> closed_val h p) ->
  safe (fun _ h' => grown h h' /\ exists inner, h' !! lr = Some (ODict inner))
       (for_each_h (filter_step s lr) fs h).
Proof.
  induction fs as [|[f p] fs IH]; intros h Hc Hin Hps; cbn [for_each_h].
  - simpl. split; [apply grown_refl; exact Hc | exact Hin].
  - eapply safe_bind; [apply filter_step_safe; auto; apply (Hps f); left|].
    intros u h1 [[Hd1 Hc1] Hin1].
    eapply safe_weaken.
    + apply IH; auto. intros f' p' Hfp.
      eapply closed_val_dom; [apply (Hps f'); right; exact Hfp | exact Hd1].
    + intros u' h2 [Hg2 Hin2]. split; [|exact Hin2].
      eapply grown_trans; eauto.
Qed.

Lemma dump_stream_safe (s : stream_of hval) (h : heap) :
  closed_heap h -> closed_obj h (OStream s) ->
  safe (fun r h' => grown h h' /\ closed_val h' r) (Heap.dump_stream s h).
Proof.
  intros Hc Hs. unfold Heap.dump_stream.
  eapply safe_bind.
  { apply alloc_safe; [exact Hc|]. intros k v Hk.
    rewrite lookup_empty in Hk. discriminate. }
  intros lr h1 [[Hd1 Hc1] [Hl1 _]].
  eapply safe_bind with
    (Q := fun _ h2 => grown h1 h2 /\ exists inner, h2 !! lr = Some (ODict inner)).
  { destruct (stream_filters s) as [|fp fs] eqn:Efs.
    - eapply safe_bind;
        [apply safe_lift with (Q := fun _ h2 => h2 = h1); auto|].
      intros t h2 ->.
      eapply safe_weaken; [eapply setitem_safe; eauto; exact I|].
      intros u h2 [Hg Hl]. eauto.
    - apply filter_loop_safe; eauto.
      intros f p Hfp. eapply closed_val_dom; [|exact Hd1].
      simpl in Hs. rewrite Efs in Hs. eapply Hs. exact Hfp. }
  intros u h2 [[Hd2 Hc2] [inner Hin]].
  eapply safe_bind.
  { apply alloc_safe; [exact Hc2|]. intros k v Hk.
    apply lookup_singleton_Some in Hk as [_ <-]. simpl. eauto. }
  intros l h3 [[Hd3 Hc3] [Hl3 _]]. simpl. split.
  - split; [|exact Hc3]. etrans; [exact Hd1|]. etrans; eauto.
  - eauto.
Qed.

Lemma resolve1_closed (h : heap) objs n :
  closed_objs h objs ->
  forall x t, closed_val h x -> Heap.resolve1 n objs x = Ok t -> closed_val h t.
Proof.
  intros Ho. induction n as [|n IH]; intros x t Hx Hr;
    destruct x; simpl in Hr; try (injection Hr as <-; exact Hx);
    try discriminate.
  eapply IH; [|exact Hr].
  destruct (objs !! objid) as [v|] eqn:E; simpl; [eapply Ho; eauto | exact I].
Qed.

Section Items.

Variable f : hval -> M hval.
Variable h0 : heap.
Hypothesis f_safe :
  forall v h, grown h0 h -> closed_val h v ->
  safe (fun r h' => grown h h' /\ closed_val h' r) (f v h).

Lemma dict_items_safe kvs :
  forall acc h,
  grown h0 h ->
  (forall kv, kv ∈ kvs -> closed_val h kv.2) ->
  (forall k v, acc !! k = Some v -> closed_val h v) ->
  safe (fun d' h' => grown h0 h'
                     /\ forall k v, d' !! k = Some v -> closed_val h' v)
       (Heap.dict_items f kvs acc h).
Proof.
  induction kvs as [|[k0 v0] kvs IH]; intros acc h Hg Hkvs Hacc;
    cbn [Heap.dict_items].
  - simpl. auto.
  - eapply safe_bind; [apply f_safe; [exact Hg | apply (Hkvs (k0, v0)); left]|].
    intros r h1 [[Hd1 Hc1] Hr]. apply IH.
    + destruct Hg as [Hd0 _]. split; [etrans; eauto | exact Hc1].
    + intros kv Hkv. eapply closed_val_dom; [apply Hkvs; right; exact Hkv|].
      exact Hd1.
    + intros k v Hk. simpl in Hk.
      apply lookup_insert_Some in Hk as [[_ <-]|[_ Hk]]; [exact Hr|].
      eapply closed_val_dom; [eapply Hacc; exact Hk | exact Hd1].
Qed.

Lemma list_items_safe xs :
  forall acc h,
  grown h0 h ->
  (forall x, x ∈ xs -> closed_val h x) ->
  (forall v, v ∈ acc -> closed_val h v) ->
  safe (fun xs' h' => grown h0 h'
                      /\ forall v, v ∈ xs' -> closed_val h' v)
       (Heap.list_items f xs acc h).
Proof.
  induction xs as [|x xs IH]; intros acc h Hg Hxs Hacc;
    cbn [Heap.list_items].
  - simpl. auto.
  - eapply safe_bind; [apply f_safe; [exact Hg | apply Hxs; left]|].
    intros r h1 [[Hd1 Hc1] Hr]. apply IH.
    + destruct Hg as [Hd0 _]. split; [etrans; eauto | exact Hc1].
    + intros y Hy. eapply closed_val_dom; [apply Hxs; right; exact Hy|].
      exact Hd1.
    + intros v Hv. apply elem_of_app in Hv as [Hv|Hv].
      * eapply closed_val_dom; [apply Hacc; exact Hv | exact Hd1].
      * apply list_elem_of_singleton in Hv as ->. exact Hr.
Qed.

End Items.

Lemma dump_obj_safe (objs : gmap Z hval) (h0 : heap) fuel :
  closed_objs h0 objs ->
  forall obj h,
  grown h0 h -> closed_val h obj ->
  safe (fun r h' => grown h h' /\ closed_val h' r)
       (Heap.dump_obj fuel objs obj h).
Proof.
  intros Ho. induction fuel as [|fuel IH]; intros obj h Hg Hobj; [exact I|].
  pose proof Hg as [Hd0 Hc].
  destruct obj; cbn [Heap.dump_obj];
    try (simpl; split; [apply grown_refl; exact Hc | exact I]).
  - eapply safe_bind;
      [apply safe_lift with (Q := fun _ h1 => h1 = h); auto|].
    intros t h1 ->. simpl. split; [apply grown_refl; exact Hc | exact I].
  - eapply safe_bind;
      [apply safe_lift with
         (Q := fun t h1 => h1 = h /\ closed_val h t)|].
    { intros t Ht. split; [reflexivity|].
      eapply resolve1_closed; [|exact Hobj|exact Ht].
      eapply closed_objs_dom; eauto. }
    intros t h1 [-> Ht]. apply IH; assumption.
  - simpl in Hobj. destruct Hobj as [o Hl].
    unfold bind at 1. unfold load. rewrite Hl.
    pose proof (Hc l o Hl) as Hclo.
    assert (IH' : forall v h', grown h h' -> closed_val h' v ->
              safe (fun r h'' => grown h' h'' /\ closed_val h'' r)
                   (Heap.dump_obj fuel objs v h')).
    { intros v h' Hg' Hv. apply IH; [|exact Hv].
      eapply grown_trans; eauto. }
    destruct o as [d|xs|s].
    + eapply safe_bind.
      { apply (dict_items_safe (Heap.dump_obj fuel objs) h IH');
          [apply grown_refl; exact Hc| |].
        - intros [k v] Hkv. apply elem_of_map_to_list in Hkv.
          eapply Hclo. exact Hkv.
        - intros k v Hk. rewrite lookup_empty in Hk. discriminate. }
      intros d' h1 [[Hd1 Hc1] Hd'].
      eapply safe_bind; [apply alloc_safe; [exact Hc1 | exact Hd']|].
      intros l' h2 [[Hd2 Hc2] [Hl2 _]]. simpl. split; [|eauto].
      split; [etrans; eauto | exact Hc2].
    + eapply safe_bind.
      { apply (list_items_safe (Heap.dump_obj fuel objs) h IH');
          [apply grown_refl; exact Hc| |].
        - intros x Hx. eapply Hclo. exact Hx.
        - intros v Hv. inversion Hv. }
      intros xs' h1 [[Hd1 Hc1] Hxs'].
      eapply safe_bind; [apply alloc_safe; [exact Hc1 | exact Hxs']|].
      intros l' h2 [[Hd2 Hc2] [Hl2 _]]. simpl. split; [|eauto].
      split; [etrans; eauto | exact Hc2].
    + apply dump_stream_safe; assumption.
Qed.

(** On a closed heap [dump_obj] never uses a location without object. *)
Lemma dump_obj_not_stuck (objs : gmap Z hval) fuel obj (h : heap) :
  closed_heap h -> closed_objs h objs -> closed_val h obj ->
  Heap.dump_obj fuel objs obj h <> HStuck.
Proof.
  intros Hc Ho Hv E.
  pose proof (dump_obj_safe objs h fuel Ho obj h (grown_refl h Hc) Hv) as H.
  rewrite E in H. exact H.
Qed.

End HeapClosed.





(** ** The resource catalog *)

Section CatalogFacts.

Import Catalog.

Variable resource : Type.
Variable server : Type.
Variable FileResource : string -> string -> string -> exn + resource.
Variable add_resource : server -> resource -> exn + server.
Variable resolve : Path -> string.

Lemma glob_pdf_not_listable (fs : filesystem) datadir :
  (forall names, fs !! datadir <> Some (Dir true names)) ->
  glob_pdf fs datadir = [].
Proof.
  intros H. unfold glob_pdf.
  destruct (fs !! datadir) as [[|[|] names]|] eqn:E; try reflexivity.
  exfalso. eapply H. reflexivity.
Qed.

Lemma glob_pdf_no_match (fs : filesystem) datadir names :
  fs !! datadir = Some (Dir true names) ->
  Forall (fun n => ends_with ".pdf" n = false) names ->
  glob_pdf fs datadir = [].
Proof.
  intros E Hall. unfold glob_pdf. rewrite E. clear E.
  induction Hall as [|n names Hn _ IH]; simpl; [reflexivity|].
  rewrite Hn. exact IH.
Qed.


End CatalogFacts.



(** A directory with matching files is registered file by file. *)
Example find_resources_sample :
  Catalog.find_resources _ _ Catalog.table_FileResource Catalog.table_add
    Catalog.table_resolve Catalog.sample_fs "/srv/pdfs" ∅
  = Ok {[ "pdf://a" := ("/srv/pdfs/a.pdf", "application/pdf");
          "pdf://b" := ("/srv/pdfs/b.pdf", "application/pdf") ]}.
Proof. vm_compute. reflexivity. Qed.

(** * Further properties of the code *)

(** ** Rendering of streams *)

Lemma filter_loop_needs_text (s : PDFStream) fs :
  forall acc r f p,
  for_each (filter_step s) fs acc = Ok r ->
  (f, p) ∈ fs -> is_flate f = true ->
  exists T, decoded_text s = Ok T.
Proof.
  induction fs as [|[f0 p0] fs IH]; intros acc r f p H Hin Hf.
  - inversion Hin.
  - cbn [for_each] in H.
    destruct (filter_step s acc (f0, p0)) as [acc1| |] eqn:E; try discriminate.
    apply elem_of_cons in Hin as [Heq|Hin].
    + injection Heq as <- <-. unfold filter_step in E. rewrite Hf in E.
      destruct (decoded_text s) as [T| |]; try discriminate. eauto.
    + eapply IH; eauto.
Qed.

Lemma filter_loop_raise (s : PDFStream) fs :
  forall acc e,
  for_each (filter_step s) fs acc = Raise e ->
  decoded_text s = Raise e /\ exists f p, (f, p) ∈ fs /\ is_flate f = true.
Proof.
  induction fs as [|[f0 p0] fs IH]; intros acc e H; cbn [for_each] in H.
  - discriminate.
  - unfold filter_step in H at 1. destruct (is_flate f0) eqn:Ef.
    + destruct (decoded_text s) as [T| |] eqn:ET; simpl in H.
      * destruct (IH _ _ H) as [H1 (f & p & Hin & Hf)].
        split; [exact H1|]. exists f, p. split; [right; exact Hin | exact Hf].
      * injection H as <-. split; [reflexivity|].
        exists f0, p0. split; [left | exact Ef].
      * discriminate.
    + rewrite b64_text_ok in H. simpl in H.
      destruct (IH _ _ H) as [H1 (f & p & Hin & Hf)].
      split; [exact H1|]. exists f, p. split; [right; exact Hin | exact Hf].
Qed.

Lemma filter_loop_unrecognized_total (s : PDFStream) fs :
  Forall (fun fp => is_flate fp.1 = false) fs ->
  forall acc, exists r, for_each (filter_step s) fs acc = Ok r.
Proof.
  induction 1 as [|[f p] fs Hf _ IH]; intros acc; cbn [for_each filter_step].
  - eauto.
  - simpl in Hf. rewrite Hf, b64_text_ok. simpl. apply IH.
Qed.

Lemma filter_loop_all_flate (s : PDFStream) fs :
  fs <> [] ->
  Forall (fun fp => is_flate fp.1 = true) fs ->
  forall acc,
  for_each (filter_step s) fs acc
  = (let* t := decoded_text s in Ok (<["stream" := PStr t]> acc)).
Proof.
  intros Hne Hall. induction Hall as [|[f p] fs Hf Hall IH]; [congruence|].
  intros acc. cbn [for_each filter_step]. simpl in Hf. rewrite Hf.
  destruct (decoded_text s) as [T| |] eqn:ET; simpl; try reflexivity.
  destruct fs as [|fp fs']; [reflexivity|].
  rewrite IH by discriminate. simpl.
  rewrite insert_insert_eq. reflexivity.
Qed.

(** Every rendered stream is a one-entry dictionary keyed by the object
    id; the inner dictionary always has text under "stream" and has no
    key besides "stream" and "params". *)
Theorem dump_stream_record_shape (s : PDFStream) r :
  dump_stream s = Ok r ->
  exists inner t,
    r = PDict {[ obj_key (stream_objid s) := PDict inner ]}
    /\ inner !! "stream" = Some (PStr t)
    /\ forall k, is_Some (inner !! k) -> k = "stream" \/ k = "params".
Proof.
  intros Hr. apply dump_stream_inv in Hr as (inner & Hin & ->).
  exists inner.
  assert (H : exists t o, inner = <["stream" := PStr t]> (set_params o ∅)).
  { unfold stream_inner in Hin.
    destruct (stream_filters s) as [|fp fs] eqn:Efs.
    - destruct (decoded_text s) as [t| |]; try discriminate.
      injection Hin as <-. exists t, None. reflexivity.
    - apply filter_loop_inv in Hin.
      destruct (last (fp :: fs)) as [[f p]|] eqn:El.
      + destruct Hin as (t & _ & ->). eauto.
      + apply last_None in El. discriminate. }
  destruct H as (t & o & ->). exists t. split; [reflexivity|].
  split; [apply lookup_insert_eq|].
  intros k [v Hk]. apply lookup_insert_Some in Hk as [[<- _]|[_ Hk]]; [auto|].
  destruct o as [p|]; simpl in Hk.
  - apply lookup_insert_Some in Hk as [[<- _]|[_ Hk]]; [auto|].
    rewrite lookup_empty in Hk. discriminate.
  - rewrite lookup_empty in Hk. discriminate.
Qed.

Lemma dump_stream_record_shape_witness :
  exists inner t,
    PDict {[ "3 0 obj" :=
               PDict {[ "params" := FilterSamples.parms1;
                        "stream" := PStr "0 0 m" ]} ]}
    = PDict {[ obj_key (stream_objid FilterSamples.unknown_then_flate) :=
                 PDict inner ]}
    /\ inner !! "stream" = Some (PStr t)
    /\ forall k, is_Some (inner !! k) -> k = "stream" \/ k = "params".
Proof.
  apply (dump_stream_record_shape FilterSamples.unknown_then_flate).
  vm_compute. reflexivity.
Defined.

(** A stream all of whose filters are unrecognized always renders, even
    when [get_data()] would fail: the result carries the parameters of
    the last pair and the base64 text of the raw bytes. *)
Theorem dump_stream_all_unrecognized (s : PDFStream) fs f p :
  stream_filters s = fs ++ [(f, p)] ->
  Forall (fun fp => is_flate fp.1 = false) (stream_filters s) ->
  dump_stream s
  = Ok (PDict {[ obj_key (stream_objid s) :=
                   PDict {[ "params" := p;
                            "stream" := PStr (base64 (stream_rawdata s)) ]} ]}).
Proof.
  intros Hfs Hall.
  assert (Hne : stream_filters s <> [])
    by (rewrite Hfs; destruct fs; discriminate).
  destruct (filter_loop_unrecognized_total s _ Hall ∅) as [inner Hin].
  unfold dump_stream. rewrite stream_inner_filtered by exact Hne.
  rewrite Hin. simpl. do 3 f_equal.
  apply filter_loop_inv in Hin. rewrite Hfs, last_snoc in Hin.
  destruct Hin as (t & Ht & ->).
  assert (Hf : is_flate f = false).
  { rewrite Hfs in Hall. apply Forall_app in Hall as [_ Hl].
    inversion Hl; subst. assumption. }
  unfold stream_text in Ht. rewrite Hf, b64_text_ok in Ht. injection Ht as <-.
  rewrite last_unrecognized_app. cbn [last_unrecognized]. rewrite Hf. simpl.
  rewrite (insert_insert_ne _ "stream" "params") by discriminate.
  rewrite insert_empty. reflexivity.
Qed.

Lemma dump_stream_all_unrecognized_witness :
  dump_stream (MkStream (Some 8) [(PLiteral "DCTDecode", PNone)]
                 [x00; x01]%byte None)
  = Ok (PDict {[ "8 0 obj" :=
                   PDict {[ "params" := PNone; "stream" := PStr "AAE=" ]} ]}).
Proof.
  apply (dump_stream_all_unrecognized
           (MkStream (Some 8) [(PLiteral "DCTDecode", PNone)]
              [x00; x01]%byte None)
           [] (PLiteral "DCTDecode") PNone).
  - reflexivity.
  - repeat constructor.
Defined.

(** A stream all of whose filters are deflate-style renders exactly as
    the same stream without filters would: the parameters of deflate
    filters are never emitted, and a decoding failure is raised as it
    is. *)
Theorem dump_stream_all_deflate (s : PDFStream) :
  Forall (fun fp => is_flate fp.1 = true) (stream_filters s) ->
  dump_stream s = dump_stream (with_filters s []).
Proof.
  intros Hall. unfold dump_stream, stream_inner at 1.
  destruct (stream_filters s) as [|fp fs] eqn:Efs.
  - unfold stream_inner, with_filters. cbn [stream_filters].
    unfold decoded_text. reflexivity.
  - rewrite (filter_loop_all_flate s (fp :: fs)) by (discriminate || assumption).
    unfold stream_inner, with_filters. cbn [stream_filters stream_objid].
    unfold decoded_text. reflexivity.
Qed.

Lemma dump_stream_all_deflate_witness :
  dump_stream (MkStream (Some 2)
                 [(PLiteral "FlateDecode", PDict {[ "Predictor" := PInt 12 ]});
                  (PLiteral "Fl", PNone)]
                 [x78]%byte (Some (list_byte_of_string "q Q")))
  = Ok (PDict {[ "2 0 obj" := PDict {[ "stream" := PStr "q Q" ]} ]}).
Proof.
  refine (eq_trans (dump_stream_all_deflate _ _) _).
  - repeat constructor.
  - vm_compute. reflexivity.
Defined.



(** ** Keys of stream records *)

Lemma string_length_append (s t : string) :
  String.length (s +:+ t) = (String.length s + String.length t)%nat.
Proof. induction s as [|c s IH]; simpl; [reflexivity | rewrite IH; reflexivity]. Qed.

Lemma string_append_inj_l (t s1 s2 : string) :
  s1 +:+ t = s2 +:+ t -> s1 = s2.
Proof.
  revert s2. induction s1 as [|c1 s1 IH]; intros [|c2 s2] H.
  - reflexivity.
  - apply (f_equal String.length) in H.
    rewrite !string_length_append in H. simpl in H. lia.
  - apply (f_equal String.length) in H.
    rewrite !string_length_append in H. simpl in H. lia.
  - simpl in H. injection H as -> H. f_equal. apply IH. exact H.
Qed.

Lemma to_int_not_nil (z : Z) :
  Z.to_int z <> Decimal.Pos Decimal.Nil /\ Z.to_int z <> Decimal.Neg Decimal.Nil.
Proof.
  split; intros H; pose proof (f_equal Z.of_int H) as Hz;
    rewrite DecimalZ.of_to in Hz; simpl in Hz; subst z;
    vm_compute in H; discriminate.
Qed.

Lemma str_int_parses (z : Z) :
  NilZero.int_of_string (str_int z) = Some (Z.to_int z).
Proof.
  unfold str_int. destruct (to_int_not_nil z). apply NilZero.isi; assumption.
Qed.

Lemma str_int_inj (a b : Z) : str_int a = str_int b -> a = b.
Proof.
  intros H. apply (f_equal NilZero.int_of_string) in H.
  rewrite !str_int_parses in H. injection H as H.
  apply (f_equal Z.of_int) in H. rewrite !DecimalZ.of_to in H. exact H.
Qed.

(** The key of a stream record determines the object id: records of
    different objects never share their key, and the key written for a
    stream without id is the key of no numbered object. *)
Theorem obj_key_inj (o1 o2 : option Z) : obj_key o1 = obj_key o2 -> o1 = o2.
Proof.
  unfold obj_key. intros H. apply string_append_inj_l in H.
  destruct o1 as [a|], o2 as [b|]; simpl in H.
  - f_equal. apply str_int_inj. exact H.
  - apply (f_equal NilZero.int_of_string) in H.
    rewrite str_int_parses in H. discriminate.
  - apply (f_equal NilZero.int_of_string) in H.
    rewrite str_int_parses in H. discriminate.
  - reflexivity.
Qed.

Lemma obj_key_inj_witness : Some 12 = Some (10 + 2).
Proof. apply (obj_key_inj (Some 12) (Some (10 + 2))). reflexivity. Defined.

(** ** Shape of normalized values *)

Lemma list_items_loop_inv (f : pyval -> outcome pyval) (l : list pyval) :
  forall acc r,
  for_each (fun acc x => let* v := f x in Ok (acc ++ [v])) l acc = Ok r ->
  exists l', r = acc ++ l' /\ Forall2 (fun x y => f x = Ok y) l l'.
Proof.
  induction l as [|x l IH]; intros acc r H; cbn [for_each] in H.
  - injection H as <-. exists []. rewrite app_nil_r. split; constructor.
  - destruct (f x) as [y| |] eqn:E; try discriminate. simpl in H.
    destruct (IH _ _ H) as (l' & -> & Hall).
    exists (y :: l'). rewrite <- app_assoc. split; [reflexivity|].
    constructor; assumption.
Qed.

(** Whatever the input, a result of [dump_obj] is [None], a dictionary,
    a list or text: bytes, streams, references, numbers and names never
    come out at the top. *)
Theorem dump_obj_plain objs fuel obj r :
  dump_obj fuel objs obj = Ok r -> is_plain r = true.
Proof.
  revert obj r. induction fuel as [|fuel IH]; intros obj r H; [discriminate|].
  destruct obj; cbn [dump_obj] in H;
    try (injection H as <-; reflexivity).
  - destruct (dict_items (dump_obj fuel objs) d); try discriminate.
    injection H as <-. reflexivity.
  - destruct (list_items (dump_obj fuel objs) l); try discriminate.
    injection H as <-. reflexivity.
  - destruct (b64_text b); try discriminate. injection H as <-. reflexivity.
  - apply dump_stream_inv in H as (inner & _ & ->). reflexivity.
  - destruct (resolve1 fuel objs (PObjRef objid)) as [t| |]; try discriminate.
    simpl in H. eapply IH. exact H.
Qed.

Lemma dump_obj_plain_witness :
  is_plain (PDict {[ "k" := PStr "AP/+" ]}) = true.
Proof.
  apply (dump_obj_plain {[ 7 := PObjRef 9; 9 := PBytes [x00; xff; xfe]%byte ]}
           4 (PDict {[ "k" := PObjRef 7 ]})).
  vm_compute. reflexivity.
Defined.

(** Normalizing a dictionary keeps its keys: the result is a dictionary
    with the same key set, each key holding the normal form of the value
    it held. *)
Theorem dump_obj_dict_keys objs fuel (d : gmap string pyval) r :
  dump_obj fuel objs (PDict d) = Ok r ->
  exists d',
    r = PDict d'
    /\ dom d' = dom d
    /\ forall k v, d !! k = Some v ->
         exists v', d' !! k = Some v' /\ dump_obj fuel objs v = Ok v'.
Proof.
  intros H. destruct fuel as [|fuel]; [discriminate|]. cbn [dump_obj] in H.
  destruct (dict_items (dump_obj fuel objs) d) as [d'| |] eqn:E;
    try discriminate.
  injection H as <-. exists d'. split; [reflexivity|].
  destruct (dict_items_lookup _ _ _ E) as [Hdom Hall].
  split; [exact Hdom|].
  intros k v Hk. destruct (Hall k v Hk) as (v' & Hv & Hl).
  exists v'. split; [exact Hl|].
  apply (dump_obj_mono_Ok fuel); [exact Hv | lia].
Qed.

Lemma dump_obj_dict_keys_witness :
  exists d',
    PDict {[ "a" := PStr "1"; "b" := PNone ]} = PDict d'
    /\ dom d' = dom ({[ "a" := PInt 1; "b" := PNone ]} : gmap string pyval)
    /\ forall k v,
         ({[ "a" := PInt 1; "b" := PNone ]} : gmap string pyval) !! k = Some v ->
         exists v', d' !! k = Some v' /\ dump_obj 2 ∅ v = Ok v'.
Proof.
  apply (dump_obj_dict_keys ∅ 2 {[ "a" := PInt 1; "b" := PNone ]}).
  vm_compute. reflexivity.
Defined.

(** Normalizing a list keeps its length and order: the result is the
    list of the normal forms of the elements. *)
Theorem dump_obj_list_elements objs fuel (l : list pyval) r :
  dump_obj fuel objs (PList l) = Ok r ->
  exists l',
    r = PList l'
    /\ Forall2 (fun x y => dump_obj fuel objs x = Ok y) l l'.
Proof.
  intros H. destruct fuel as [|fuel]; [discriminate|]. cbn [dump_obj] in H.
  destruct (list_items (dump_obj fuel objs) l) as [l'| |] eqn:E;
    try discriminate.
  injection H as <-. exists l'. split; [reflexivity|].
  unfold list_items in E. apply list_items_loop_inv in E as (l'' & -> & Hall).
  rewrite app_nil_l. eapply Forall2_impl; [exact Hall|].
  intros x y Hxy. cbv beta in Hxy.
  exact (dump_obj_mono_Ok fuel objs x y Hxy (S fuel) (Nat.le_succ_diag_r fuel)).
Qed.

Lemma dump_obj_list_elements_witness :
  exists l',
    PList [PStr "TQ=="; PStr "x"] = PList l'
    /\ Forall2 (fun x y => dump_obj 2 ∅ x = Ok y)
               [PBytes (list_byte_of_string "M"); PStr "x"] l'.
Proof.
  apply (dump_obj_list_elements ∅ 2 [PBytes (list_byte_of_string "M"); PStr "x"]).
  vm_compute. reflexivity.
Defined.

(** ** References *)

(** A reference to an object id that the document does not have
    normalizes to [None]. *)
Theorem dump_obj_dangling_reference objs objid fuel :
  objs !! objid = None ->
  (2 <= fuel)%nat ->
  dump_obj fuel objs (PObjRef objid) = Ok PNone.
Proof.
  intros Hno Hfuel. destruct fuel as [|[|fuel]]; try lia.
  cbn [dump_obj resolve1]. rewrite Hno. simpl.
  rewrite resolve1_eq. reflexivity.
Qed.

Lemma dump_obj_dangling_reference_witness :
  dump_obj 2 {[ 1 := PStr "x" ]} (PObjRef 5) = Ok PNone.
Proof.
  apply (dump_obj_dangling_reference {[ 1 := PStr "x" ]} 5 2);
    [reflexivity | lia].
Defined.

Lemma resolve1_cycle (objs : gmap Z pyval) (ids : gset Z) :
  (forall i, i ∈ ids -> exists j, j ∈ ids /\ objs !! i = Some (PObjRef j)) ->
  forall n i, i ∈ ids -> resolve1 n objs (PObjRef i) = OutOfFuel.
Proof.
  intros Hcyc. induction n as [|n IH]; intros i Hi; [reflexivity|].
  destruct (Hcyc i Hi) as (j & Hj & Hij). simpl. rewrite Hij. simpl.
  apply IH. exact Hj.
Qed.

(** A reference into a set of object ids each of which is again a
    reference into the set is never normalized: no amount of fuel gives
    a result or an error. *)
Theorem dump_obj_reference_cycle (objs : gmap Z pyval) (ids : gset Z) objid :
  (forall i, i ∈ ids -> exists j, j ∈ ids /\ objs !! i = Some (PObjRef j)) ->
  objid ∈ ids ->
  forall fuel, dump_obj fuel objs (PObjRef objid) = OutOfFuel.
Proof.
  intros Hcyc Hin [|fuel]; [reflexivity|].
  cbn [dump_obj]. rewrite (resolve1_cycle objs ids Hcyc fuel objid Hin).
  reflexivity.
Qed.

Lemma dump_obj_reference_cycle_witness :
  dump_obj 1000 {[ 1 := PObjRef 2; 2 := PObjRef 1 ]} (PObjRef 1) = OutOfFuel.
Proof.
  refine (dump_obj_reference_cycle {[ 1 := PObjRef 2; 2 := PObjRef 1 ]}
            {[ 1; 2 ]} 1 _ _ 1000%nat).
  - intros i Hi. apply elem_of_union in Hi as [Hi|Hi];
      apply elem_of_singleton in Hi as ->.
    + exists 2. split; [set_solver | reflexivity].
    + exists 1. split; [set_solver | reflexivity].
  - set_solver.
Defined.

(** Normalizing a reference is normalizing the object it resolves to:
    the two end with the same result or the same error. *)
Theorem dump_obj_reference_transparent objs objid target n :
  resolve1 n objs (PObjRef objid) = Ok target ->
  forall r, yields objs (PObjRef objid) r <-> yields objs target r.
Proof.
  intros Hres r. split; intros (fuel & Hr & Hs).
  - destruct fuel as [|fuel]; [subst r; destruct Hs; reflexivity|].
    cbn [dump_obj] in Hr.
    destruct (resolve1 fuel objs (PObjRef objid)) as [t| |] eqn:E.
    + assert (t = target) as ->.
      { pose proof (resolve1_mono fuel objs (PObjRef objid)) as H1.
        pose proof (resolve1_mono n objs (PObjRef objid)) as H2.
        rewrite E in H1. rewrite Hres in H2.
        destruct (Nat.le_ge_cases fuel n) as [Hle|Hle].
        - specialize (H1 (settled_Ok _) n Hle). congruence.
        - specialize (H2 (settled_Ok _) fuel Hle). congruence. }
      exists fuel. split; [exact Hr | exact Hs].
    + exfalso.
      pose proof (resolve1_mono fuel objs (PObjRef objid)) as H1.
      pose proof (resolve1_mono n objs (PObjRef objid)) as H2.
      rewrite E in H1. rewrite Hres in H2.
      destruct (Nat.le_ge_cases fuel n) as [Hle|Hle].
      * specialize (H1 (settled_Raise _) n Hle). congruence.
      * specialize (H2 (settled_Ok _) fuel Hle). congruence.
    + simpl in Hr. subst r. destruct Hs; reflexivity.
  - exists (S (Nat.max n fuel)). split; [|exact Hs].
    cbn [dump_obj].
    rewrite (resolve1_mono n objs (PObjRef objid)) by (rewrite ?Hres; auto; lia).
    rewrite Hres. simpl. rewrite <- Hr.
    apply dump_obj_mono; [rewrite Hr; exact Hs | lia].
Qed.

Lemma dump_obj_reference_transparent_witness :
  yields {[ 4 := PStream Samples.binary_stream ]} (PObjRef 4)
         (Raise UnicodeDecodeError).
Proof.
  assert (H : resolve1 1 {[ 4 := PStream Samples.binary_stream ]} (PObjRef 4)
              = Ok (PStream Samples.binary_stream))
    by (vm_compute; reflexivity).
  apply (proj2 (dump_obj_reference_transparent
                  {[ 4 := PStream Samples.binary_stream ]} 4
                  (PStream Samples.binary_stream) 1 H
                  (Raise UnicodeDecodeError))).
  exists 1%nat. split; [reflexivity | discriminate].
Defined.

(** ** Inputs without streams *)

Lemma has_no_stream_dict_lookup (d : gmap string pyval) k x :
  has_no_stream (PDict d) = true -> d !! k = Some x -> has_no_stream x = true.
Proof.
  intros Hd Hk. cbn [has_no_stream] in Hd.
  rewrite (map_fold_delete_L _ _ k x d) in Hd; [| |exact Hk].
  - apply andb_true_iff in Hd. tauto.
  - intros. rewrite !andb_assoc. f_equal. apply andb_comm.
Qed.

Lemma is_normalized_dict_intro (d : gmap string pyval) :
  (forall k v, d !! k = Some v -> is_normalized v = true) ->
  is_normalized (PDict d) = true.
Proof.
  cbn [is_normalized].
  apply (map_fold_weak_ind
           (fun (b : bool) (m : gmap string pyval) =>
              (forall k v, m !! k = Some v -> is_normalized v = true) ->
              b = true)).
  - reflexivity.
  - intros i x m b Hi IH Hall. apply andb_true_iff. split.
    + apply (Hall i). apply lookup_insert_eq.
    + apply IH. intros k v Hk. apply (Hall k).
      rewrite lookup_insert_ne; [exact Hk|]. intros ->. congruence.
Qed.

Lemma for_each_items_raise (f : pyval -> outcome pyval)
    (l : list (string * pyval)) :
  forall (acc : gmap string pyval) e,
  for_each (fun acc kv => let* v := f kv.2 in Ok (<[kv.1 := v]> acc)) l acc
  = Raise e ->
  exists kv, kv ∈ l /\ f kv.2 = Raise e.
Proof.
  induction l as [|[k v] l IH]; intros acc e H; cbn [for_each] in H.
  - discriminate.
  - simpl in H. destruct (f v) as [r| |] eqn:E; simpl in H.
    + destruct (IH _ _ H) as (kv & Hin & Hkv). exists kv.
      split; [right; exact Hin | exact Hkv].
    + injection H as <-. exists (k, v). split; [left | exact E].
    + discriminate.
Qed.

Lemma list_items_loop_raise (f : pyval -> outcome pyval) (l : list pyval) :
  forall acc e,
  for_each (fun acc x => let* v := f x in Ok (acc ++ [v])) l acc = Raise e ->
  exists x, x ∈ l /\ f x = Raise e.
Proof.
  induction l as [|x l IH]; intros acc e H; cbn [for_each] in H.
  - discriminate.
  - destruct (f x) as [r| |] eqn:E; simpl in H.
    + destruct (IH _ _ H) as (y & Hin & Hy). exists y.
      split; [right; exact Hin | exact Hy].
    + injection H as <-. exists x. split; [left | exact E].
    + discriminate.
Qed.

Lemma resolve1_without_streams (objs : gmap Z pyval) n :
  (forall objid x, objs !! objid = Some x -> has_no_stream x = true) ->
  forall x,
  has_no_stream x = true ->
  match resolve1 n objs x with
  | Ok t => has_no_stream t = true
  | Raise _ => False
  | OutOfFuel => True
  end.
Proof.
  intros Hobjs. induction n as [|n IH]; intros x Hx;
    destruct x; simpl; try exact Hx; try exact I; try reflexivity.
  apply IH. destruct (objs !! objid) as [y|] eqn:E; simpl; [|reflexivity].
  eapply Hobjs. exact E.
Qed.

Lemma dump_obj_stream_free (objs : gmap Z pyval) fuel :
  (forall objid x, objs !! objid = Some x -> has_no_stream x = true) ->
  forall v,
  has_no_stream v = true ->
  match dump_obj fuel objs v with
  | Ok r => is_normalized r = true
  | Raise _ => False
  | OutOfFuel => True
  end.
Proof.
  intros Hobjs. induction fuel as [|fuel IH]; intros v Hv; [exact I|].
  destruct v; cbn [dump_obj]; try reflexivity; try discriminate.
  - destruct (dict_items (dump_obj fuel objs) d) as [d'| |] eqn:E; simpl;
      [| |exact I].
    + destruct (dict_items_inv _ _ _ E) as [-> Hall].
      apply is_normalized_dict_intro. intros k v Hk.
      rewrite lookup_fmap in Hk.
      destruct (d !! k) as [x|] eqn:Ex; simpl in Hk; [|discriminate].
      injection Hk as <-.
      pose proof (IH x (has_no_stream_dict_lookup d k x Hv Ex)) as Hx.
      rewrite (Hall k x Ex) in Hx. exact Hx.
    + unfold dict_items in E. apply for_each_items_raise in E as ([k x] & Hin & Hx).
      apply elem_of_map_to_list in Hin. simpl in Hx.
      pose proof (IH x (has_no_stream_dict_lookup d k x Hv Hin)) as H.
      rewrite Hx in H. exact H.
  - cbn [has_no_stream] in Hv. rewrite forallb_forall in Hv.
    destruct (list_items (dump_obj fuel objs) l) as [l'| |] eqn:E; simpl;
      [| |exact I].
    + unfold list_items in E.
      apply list_items_loop_inv in E as (l'' & -> & Hall). simpl.
      apply forallb_forall. intros y Hy. apply list_elem_of_In in Hy.
      apply list_elem_of_lookup in Hy as [i Hi].
      destruct (Forall2_lookup_r _ _ _ _ _ Hall Hi) as (x & Hx & Hxy).
      apply list_elem_of_lookup_2, list_elem_of_In in Hx.
      pose proof (IH x (Hv x Hx)) as H. rewrite Hxy in H. exact H.
    + unfold list_items in E.
      apply list_items_loop_raise in E as (x & Hin & Hx).
      pose proof (IH x (Hv x (proj1 (list_elem_of_In _ _) Hin))) as H.
      rewrite Hx in H. exact H.
  - rewrite b64_text_ok. reflexivity.
  - pose proof (resolve1_without_streams objs fuel Hobjs (PObjRef objid) Hv) as Hr.
    destruct (resolve1 fuel objs (PObjRef objid)) as [t| |]; simpl;
      [apply IH; exact Hr | exact Hr | exact I].
Qed.



(** On an input without streams the result is fully normalized, so that
    normalizing it a second time gives it back unchanged. *)
Theorem dump_obj_without_streams_idempotent (objs : gmap Z pyval) v fuel r :
  (forall objid x, objs !! objid = Some x -> has_no_stream x = true) ->
  has_no_stream v = true ->
  dump_obj fuel objs v = Ok r ->
  is_normalized r = true
  /\ exists n0, forall m, (n0 <= m)%nat -> dump_obj m objs r = Ok r.
Proof.
  intros Hobjs Hv E.
  pose proof (dump_obj_stream_free objs fuel Hobjs v Hv) as H.
  rewrite E in H. split; [exact H|].
  exists (height r). intros m Hm. apply dump_obj_normalized; assumption.
Qed.

Lemma dump_obj_without_streams_idempotent_witness :
  is_normalized (PList [PStr "/w=="; PStr "3"; PDict {[ "k" := PNone ]}]) = true
  /\ exists n0, forall m, (n0 <= m)%nat ->
       dump_obj m {[ 7 := PBytes [xff]%byte ]}
         (PList [PStr "/w=="; PStr "3"; PDict {[ "k" := PNone ]}])
       = Ok (PList [PStr "/w=="; PStr "3"; PDict {[ "k" := PNone ]}]).
Proof.
  apply (dump_obj_without_streams_idempotent {[ 7 := PBytes [xff]%byte ]}
           (PList [PObjRef 7; PInt 3; PDict {[ "k" := PObjRef 8 ]}]) 4).
  - intros objid x Hx. apply lookup_singleton_Some in Hx as [_ <-]. reflexivity.
  - vm_compute. reflexivity.
  - vm_compute. reflexivity.
Defined.

(** ** The matched page, in general *)

Lemma contents_loop_inv (f : pyval -> outcome pyval) (cs : list pyval) :
  forall c0 c,
  for_each (fun _ obj => f obj) cs c0 = Ok c ->
  Forall (fun x => exists y, f x = Ok y) cs
  /\ match last cs with
     | None => c = c0
     | Some b => f b = Ok c
     end.
Proof.
  induction cs as [|x cs IH]; intros c0 c H; cbn [for_each] in H.
  - injection H as <-. split; [constructor | reflexivity].
  - destruct (f x) as [y| |] eqn:E; try discriminate. simpl in H.
    destruct (IH _ _ H) as [Hall Hlast]. split; [constructor; eauto|].
    rewrite last_cons. destruct (last cs); [exact Hlast | congruence].
Qed.

Lemma contents_loop_raise (f : pyval -> outcome pyval) (pre post : list pyval)
    x e :
  Forall (fun x => exists y, f x = Ok y) pre ->
  f x = Raise e ->
  forall c0, for_each (fun _ obj => f obj) (pre ++ x :: post) c0 = Raise e.
Proof.
  intros Hpre Hx. induction Hpre as [|a pre [y Ha] _ IH]; intros c0; simpl.
  - rewrite Hx. reflexivity.
  - rewrite Ha. simpl. apply IH.
Qed.

Section MatchedPageGeneral.

Variable parse : list byte -> exn + PDFDocument.

(** Whatever the number of content entries, "contents" is the normal
    form of the last entry alone ([{}] when there is none), and a result
    exists only if every entry, also the discarded ones, normalizes. *)
Theorem dump_page_contents_last fuel data doc pagenum page r :
  parse data = inr doc ->
  1 <= pagenum ->
  doc_pages doc !! Z.to_nat (pagenum - 1) = Some page ->
  dump_page parse fuel data pagenum = Ok r ->
  let objs := doc_objects doc in
  Forall (fun x => exists y, dump_obj fuel objs x = Ok y) (page_contents page)
  /\ exists c,
       dict_get "contents" r = Some c
       /\ match last (page_contents page) with
          | None => c = PDict ∅
          | Some b => dump_obj fuel objs b = Ok c
          end.
Proof.
  intros Hparse Hn Hpage Hr objs.
  rewrite (dump_page_match parse fuel data doc pagenum page Hparse Hn Hpage)
    in Hr.
  unfold dump_matched_page in Hr. fold objs in Hr.
  destruct (for_each (fun _ obj => dump_obj fuel objs obj)
              (page_contents page) (PDict ∅)) as [c| |] eqn:E;
    try discriminate.
  simpl in Hr.
  destruct (dict_items (dump_obj fuel objs) (page_resources page))
    as [rs| |]; try discriminate.
  injection Hr as <-.
  destruct (contents_loop_inv _ _ _ _ E) as [Hall Hlast].
  split; [exact Hall|]. exists c. split; [|exact Hlast].
  simpl. apply lookup_insert_eq.
Qed.


(** A result of [dump_page] is a dictionary with exactly the two keys
    "contents" and "resources"; "resources" is a dictionary with the
    keys of the page's resources, each holding the normal form of its
    value. *)
Theorem dump_page_result_shape fuel data doc pagenum page r :
  parse data = inr doc ->
  1 <= pagenum ->
  doc_pages doc !! Z.to_nat (pagenum - 1) = Some page ->
  dump_page parse fuel data pagenum = Ok r ->
  exists c rs,
    r = PDict {[ "contents" := c; "resources" := PDict rs ]}
    /\ dom rs = dom (page_resources page)
    /\ forall k v, page_resources page !! k = Some v ->
         exists y, rs !! k = Some y
                   /\ dump_obj fuel (doc_objects doc) v = Ok y.
Proof.
  intros Hparse Hn Hpage Hr.
  rewrite (dump_page_match parse fuel data doc pagenum page Hparse Hn Hpage)
    in Hr.
  unfold dump_matched_page in Hr.
  destruct (for_each (fun _ obj => dump_obj fuel (doc_objects doc) obj)
              (page_contents page) (PDict ∅)) as [c| |];
    try discriminate.
  simpl in Hr.
  destruct (dict_items (dump_obj fuel (doc_objects doc)) (page_resources page))
    as [rs| |] eqn:E; try discriminate.
  injection Hr as <-. exists c, rs. split; [reflexivity|].
  destruct (dict_items_lookup _ _ _ E) as [Hdom Hall]. split; [exact Hdom|].
  intros k v Hk. destruct (Hall k v Hk) as (y & Hy & Hl). eauto.
Qed.

End MatchedPageGeneral.

(** Only the requested page is looked at: two parsed documents with the
    same object table and the same page at the requested position give
    the same outcome, whatever their other pages hold. *)
Theorem dump_page_local (parse1 parse2 : list byte -> exn + PDFDocument)
    fuel data1 data2 doc1 doc2 pagenum page :
  parse1 data1 = inr doc1 ->
  parse2 data2 = inr doc2 ->
  doc_objects doc1 = doc_objects doc2 ->
  1 <= pagenum ->
  doc_pages doc1 !! Z.to_nat (pagenum - 1) = Some page ->
  doc_pages doc2 !! Z.to_nat (pagenum - 1) = Some page ->
  dump_page parse1 fuel data1 pagenum = dump_page parse2 fuel data2 pagenum.
Proof.
  intros H1 H2 Hobjs Hn Hp1 Hp2.
  rewrite (dump_page_match parse1 fuel data1 doc1 pagenum page H1 Hn Hp1).
  rewrite (dump_page_match parse2 fuel data2 doc2 pagenum page H2 Hn Hp2).
  rewrite Hobjs. reflexivity.
Qed.

Lemma dump_page_contents_last_witness :
  Forall (fun x => exists y,
            dump_obj 3 (doc_objects Samples.two_streams_doc) x = Ok y)
         (page_contents Samples.two_streams_page)
  /\ exists c,
       dict_get "contents"
         (PDict {[ "contents" :=
                     PDict {[ "11 0 obj" := PDict {[ "stream" := PStr "Q" ]} ]};
                   "resources" :=
                     PDict {[ "ProcSet" := PList [PStr "/'PDF'"] ]} ]})
       = Some c
       /\ match last (page_contents Samples.two_streams_page) with
          | None => c = PDict ∅
          | Some b => dump_obj 3 (doc_objects Samples.two_streams_doc) b = Ok c
          end.
Proof.
  apply (dump_page_contents_last Samples.parse_two_streams 3 []
           Samples.two_streams_doc 2 Samples.two_streams_page).
  - reflexivity.
  - lia.
  - reflexivity.
  - vm_compute. reflexivity.
Defined.


Lemma dump_page_result_shape_witness :
  exists c rs,
    PDict {[ "contents" :=
               PDict {[ "11 0 obj" := PDict {[ "stream" := PStr "Q" ]} ]};
             "resources" := PDict {[ "ProcSet" := PList [PStr "/'PDF'"] ]} ]}
    = PDict {[ "contents" := c; "resources" := PDict rs ]}
    /\ dom rs = dom (page_resources Samples.two_streams_page)
    /\ forall k v, page_resources Samples.two_streams_page !! k = Some v ->
         exists y, rs !! k = Some y
                   /\ dump_obj 3 (doc_objects Samples.two_streams_doc) v = Ok y.
Proof.
  apply (dump_page_result_shape Samples.parse_two_streams 3 []
           Samples.two_streams_doc 2 Samples.two_streams_page).
  - reflexivity.
  - lia.
  - reflexivity.
  - vm_compute. reflexivity.
Defined.

Lemma dump_page_local_witness :
  dump_page Samples.parse_two_streams 3 [] 2
  = dump_page MoreSamples.parse_other_pages 3 [] 2.
Proof.
  apply (dump_page_local Samples.parse_two_streams MoreSamples.parse_other_pages
           3 [] [] Samples.two_streams_doc MoreSamples.other_pages_doc 2
           Samples.two_streams_page);
    first [reflexivity | lia].
Defined.

(** ** The tool entry point *)

Section DebugPageFacts.

Import Tool.

Variable parse : list byte -> exn + PDFDocument.
Variable read_error : Type.
Variable read_resource : string -> read_error + list (list byte).

(** Through the tool, a page number outside the document read from the
    first item of the resource fails with the out-of-range error of
    [dump_page]; the other items are not looked at. *)
Theorem debug_page_out_of_range fuel uri page first rest doc :
  read_resource uri = inr (first :: rest) ->
  parse first = inr doc ->
  page <= 0 \/ Z.of_nat (length (doc_pages doc)) < page ->
  debug_page parse read_error read_resource fuel uri page
  = ToolRaise (DumpError (ValueError "Page out of range")).
Proof.
  intros Hread Hparse Hpage. unfold debug_page. rewrite Hread.
  unfold dump_page. rewrite Hparse.
  rewrite walk_pages_out_of_range by lia. reflexivity.
Qed.

(** [FileNotFoundError] is raised exactly when the read yields no item,
    and its message names the uri. *)
Theorem debug_page_not_found_iff fuel uri page msg :
  debug_page parse read_error read_resource fuel uri page
  = ToolRaise (FileNotFoundError msg)
  <-> read_resource uri = inr [] /\ msg = uri +:+ " not found".
Proof.
  unfold debug_page. split.
  - destruct (read_resource uri) as [e|[|first rest]]; intros H.
    + discriminate.
    + injection H as <-. split; reflexivity.
    + destruct (dump_page parse fuel first page); discriminate.
  - intros [-> ->]. reflexivity.
Qed.

End DebugPageFacts.

Lemma debug_page_out_of_range_witness :
  Tool.debug_page Samples.parse_one_page unit Tool.read_sample 5 "pdf://a" 2
  = Tool.ToolRaise (Tool.DumpError (ValueError "Page out of range")).
Proof.
  apply (debug_page_out_of_range Samples.parse_one_page unit Tool.read_sample
           5 "pdf://a" 2 [x25; x50]%byte [[x00]%byte] Samples.one_page_doc).
  - reflexivity.
  - reflexivity.
  - right. simpl. lia.
Defined.

Lemma debug_page_not_found_iff_witness :
  Tool.debug_page Samples.parse_one_page unit Tool.read_sample 5 "pdf://empty" 1
  = Tool.ToolRaise (Tool.FileNotFoundError "pdf://empty not found").
Proof.
  apply (proj2 (debug_page_not_found_iff Samples.parse_one_page unit
                  Tool.read_sample 5 "pdf://empty" 1 "pdf://empty not found")).
  split; reflexivity.
Defined.

(** ** Resource identifiers of the catalog *)

Lemma substring_whole (s : string) : String.substring 0 (String.length s) s = s.
Proof. induction s as [|c s IH]; simpl; [reflexivity | rewrite IH; reflexivity]. Qed.

Lemma substring_split (s : string) :
  forall k, (k <= String.length s)%nat ->
  String.substring 0 k s +:+ String.substring k (String.length s - k) s = s.
Proof.
  induction s as [|c s IH]; intros k Hk.
  - simpl in Hk. assert (k = 0)%nat as -> by lia. reflexivity.
  - destruct k as [|k].
    + rewrite Nat.sub_0_r.
      change (String.substring 0 0 (String c s)) with EmptyString.
      change (EmptyString +:+ ?x) with x.
      apply substring_whole.
    + simpl in Hk. simpl.
      change (String c (String.substring 0 k s
                        +:+ String.substring k (String.length s - k) s)
              = String c s).
      f_equal. apply IH. lia.
Qed.

Lemma ends_with_pdf_split (name : string) :
  Catalog.ends_with ".pdf" name = true ->
  (4 <= String.length name)%nat
  /\ String.substring 0 (String.length name - 4) name +:+ ".pdf" = name.
Proof.
  unfold Catalog.ends_with. simpl String.length. intros H.
  apply andb_true_iff in H as [Hlen Hsuf].
  apply Nat.leb_le in Hlen. apply String.eqb_eq in Hsuf.
  split; [exact Hlen|].
  pose proof (substring_split name (String.length name - 4)) as Hsplit.
  replace (String.length name - (String.length name - 4))%nat with 4%nat
    in Hsplit by lia.
  rewrite Hsuf in Hsplit. apply Hsplit. lia.
Qed.

Lemma stem_pdf (name : string) :
  Catalog.ends_with ".pdf" name = true -> name <> ".pdf" ->
  Catalog.stem name +:+ ".pdf" = name.
Proof.
  intros He Hne. destruct (ends_with_pdf_split name He) as [Hlen Hsplit].
  unfold Catalog.stem. destruct (Nat.ltb_spec 4 (String.length name)) as [Hlt|Hge].
  - exact Hsplit.
  - exfalso. apply Hne. assert (String.length name = 4)%nat as E by lia.
    rewrite E in Hsplit. simpl in Hsplit. symmetry.
    destruct name; exact Hsplit.
Qed.

Lemma string_append_inj_r (p s1 s2 : string) : p +:+ s1 = p +:+ s2 -> s1 = s2.
Proof.
  induction p as [|c p IH]; simpl; intros H; [exact H|].
  injection H as H. apply IH. exact H.
Qed.

(** The resource identifier determines the file: two entries of the
    directory matched by [*.pdf], neither of them the bare name [.pdf],
    get the same uri only if they are the same name. *)
Theorem resource_uri_inj (a b : string) :
  Catalog.ends_with ".pdf" a = true ->
  Catalog.ends_with ".pdf" b = true ->
  a <> ".pdf" -> b <> ".pdf" ->
  "pdf://" +:+ Catalog.stem a = "pdf://" +:+ Catalog.stem b ->
  a = b.
Proof.
  intros Ha Hb Hna Hnb H. apply string_append_inj_r in H.
  rewrite <- (stem_pdf a Ha Hna), <- (stem_pdf b Hb Hnb), H. reflexivity.
Qed.

Lemma resource_uri_inj_witness : "x.y.pdf" = "x.y" +:+ ".pdf".
Proof.
  apply (resource_uri_inj "x.y.pdf" ("x.y" +:+ ".pdf"));
    first [reflexivity | discriminate].
Defined.

(** Without the side condition the uri is ambiguous: [.pdf] keeps its
    name as stem, which is also the stem of [.pdf.pdf]. *)
Example resource_uri_collision :
  Catalog.ends_with ".pdf" ".pdf" = true
  /\ Catalog.ends_with ".pdf" ".pdf.pdf" = true
  /\ Catalog.stem ".pdf" = Catalog.stem ".pdf.pdf".
Proof. repeat split. Qed.

Lemma for_each_app {A S} (body : S -> A -> outcome S) (xs ys : list A) acc :
  for_each body (xs ++ ys) acc
  = (let* acc' := for_each body xs acc in for_each body ys acc').
Proof.
  revert acc. induction xs as [|x xs IH]; intros acc; simpl; [reflexivity|].
  destruct (body acc x); simpl; [apply IH | reflexivity | reflexivity].
Qed.

Section CatalogErrors.

Import Catalog.

Variable resource : Type.
Variable server : Type.
Variable FileResource : string -> string -> string -> exn + resource.
Variable add_resource : server -> resource -> exn + server.
Variable resolve : Path -> string.

(** A registration that fails ends the scan with its error: the entries
    listed after it are not registered. *)
Theorem find_resources_registration_error (fs : filesystem) datadir
    (mcp mcp1 : server) pre p post e :
  glob_pdf fs datadir = pre ++ p :: post ->
  for_each (register resource server FileResource add_resource resolve) pre mcp
  = Ok mcp1 ->
  register resource server FileResource add_resource resolve mcp1 p = Raise e ->
  find_resources resource server FileResource add_resource resolve
    fs datadir mcp
  = Raise e.
Proof.
  intros Hglob Hpre Hp. unfold find_resources.
  rewrite Hglob, for_each_app, Hpre. simpl. rewrite Hp. reflexivity.
Qed.

End CatalogErrors.

Lemma find_resources_registration_error_witness :
  Catalog.find_resources _ _ Catalog.table_FileResource
    CatalogSamples.strict_add Catalog.table_resolve
    CatalogSamples.odd_fs "/srv/odd" ∅
  = Raise (ValueError "duplicate resource").
Proof.
  apply (find_resources_registration_error _ _ Catalog.table_FileResource
           CatalogSamples.strict_add Catalog.table_resolve
           CatalogSamples.odd_fs "/srv/odd" ∅
           {[ "pdf://.pdf" := ("/srv/odd/.pdf", "application/pdf") ]}
           [Catalog.MkPath "/srv/odd" ".pdf"]
           (Catalog.MkPath "/srv/odd" ".pdf.pdf")
           [Catalog.MkPath "/srv/odd" "z.pdf"]);
    vm_compute; reflexivity.
Defined.

(** ** Base64 text is lossless *)

Module Base64Facts.
Import Bytes Base64Decode.

Lemma b64_index_table :
  forallb (fun i => match b64_index (b64_char (N.of_nat i)) with
                    | Some s => N.eqb s (N.of_nat i)
                    | None => false
                    end) (seq 0 64) = true.
Proof. vm_compute. reflexivity. Qed.

Lemma b64_index_char (s : N) : (s < 64)%N -> b64_index (b64_char s) = Some s.
Proof.
  intros Hs. pose proof b64_index_table as H. rewrite forallb_forall in H.
  specialize (H (N.to_nat s)). rewrite N2Nat.id in H.
  destruct (b64_index (b64_char s)) as [s'|].
  - f_equal. apply N.eqb_eq. apply H. apply in_seq. lia.
  - discriminate H. apply in_seq. lia.
Qed.

Lemma b64_index_pad : b64_index b64_pad = None.
Proof. vm_compute. reflexivity. Qed.

Lemma byte_of_to_N (b : byte) : byte_of (Byte.to_N b) = b.
Proof. unfold byte_of. rewrite Byte.of_to_N. reflexivity. Qed.

Lemma mod64_lt (n : N) : (n mod 64 < 64)%N.
Proof. apply N.mod_lt. discriminate. Qed.

Lemma sextets3 (n : N) :
  ((((n / 262144) * 64 + (n / 4096) mod 64) * 64
    + (n / 64) mod 64) * 64 + n mod 64 = n)%N.
Proof.
  change 262144%N with (64 * 64 * 64)%N. change 4096%N with (64 * 64)%N.
  rewrite <- !N.Div0.div_div.
  pose proof (N.div_mod' n 64). pose proof (N.div_mod' (n / 64) 64).
  pose proof (N.div_mod' (n / 64 / 64) 64). lia.
Qed.

Lemma sextets2 (n : N) :
  (((n / 1024) * 64 + (n / 16) mod 64) * 16 + (n mod 16) * 4 / 4 = n)%N.
Proof.
  change 1024%N with (16 * 64)%N. rewrite <- N.Div0.div_div.
  rewrite N.div_mul by discriminate.
  pose proof (N.div_mod' n 16). pose proof (N.div_mod' (n / 16) 64). lia.
Qed.

Lemma sextets1 (n : N) : ((n / 4) * 4 + (n mod 4) * 16 / 16 = n)%N.
Proof.
  rewrite N.div_mul by discriminate. pose proof (N.div_mod' n 4). lia.
Qed.

Lemma decode3_encode (a b c : byte) :
  let n := (Byte.to_N a * 65536 + Byte.to_N b * 256 + Byte.to_N c)%N in
  decode3 (n / 262144) ((n / 4096) mod 64) ((n / 64) mod 64) (n mod 64)
  = [a; b; c].
Proof.
  intros n. unfold decode3. rewrite sextets3.
  pose proof (Byte.to_N_bounded a) as Ha.
  pose proof (Byte.to_N_bounded b) as Hb.
  pose proof (Byte.to_N_bounded c) as Hc.
  assert (H1 : (n / 65536 = Byte.to_N a)%N).
  { symmetry. apply (N.div_unique _ _ _ (Byte.to_N b * 256 + Byte.to_N c));
      subst n; lia. }
  assert (H2 : ((n / 256) mod 256 = Byte.to_N b)%N).
  { assert ((n / 256 = Byte.to_N a * 256 + Byte.to_N b)%N) as ->.
    { symmetry. apply (N.div_unique _ _ _ (Byte.to_N c)); subst n; lia. }
    symmetry. apply (N.mod_unique _ _ (Byte.to_N a)); lia. }
  assert (H3 : (n mod 256 = Byte.to_N c)%N).
  { symmetry. apply (N.mod_unique _ _ (Byte.to_N a * 256 + Byte.to_N b));
      subst n; lia. }
  rewrite H1, H2, H3, !byte_of_to_N. reflexivity.
Qed.

Lemma decode2_encode (a b : byte) :
  let n := (Byte.to_N a * 256 + Byte.to_N b)%N in
  decode2 (n / 1024) ((n / 16) mod 64) ((n mod 16) * 4) = [a; b].
Proof.
  intros n. unfold decode2. rewrite sextets2.
  pose proof (Byte.to_N_bounded a) as Ha.
  pose proof (Byte.to_N_bounded b) as Hb.
  assert (H1 : (n / 256 = Byte.to_N a)%N).
  { symmetry. apply (N.div_unique _ _ _ (Byte.to_N b)); subst n; lia. }
  assert (H2 : (n mod 256 = Byte.to_N b)%N).
  { symmetry. apply (N.mod_unique _ _ (Byte.to_N a)); subst n; lia. }
  rewrite H1, H2, !byte_of_to_N. reflexivity.
Qed.

Lemma decode1_encode (a : byte) :
  decode1 (Byte.to_N a / 4) ((Byte.to_N a mod 4) * 16) = [a].
Proof. unfold decode1. rewrite sextets1, byte_of_to_N. reflexivity. Qed.

Lemma b64decode_b64encode (bs : list byte) :
  b64decode (b64encode bs) = Some bs.
Proof.
  induction bs as [|a|a b|a b c l IH] using BytesFacts.list_ind3.
  - reflexivity.
  - pose proof (Byte.to_N_bounded a) as Ha.
    cbn [b64encode b64decode].
    rewrite b64_index_pad, !b64_index_char.
    + rewrite decode1_encode. reflexivity.
    + pose proof (N.mod_lt (Byte.to_N a) 4 ltac:(discriminate)). lia.
    + apply N.Div0.div_lt_upper_bound. lia.
  - pose proof (Byte.to_N_bounded a) as Ha.
    pose proof (Byte.to_N_bounded b) as Hb.
    cbn [b64encode b64decode].
    rewrite b64_index_pad, !b64_index_char.
    + rewrite decode2_encode. reflexivity.
    + pose proof (N.mod_lt (Byte.to_N a * 256 + Byte.to_N b) 16
                    ltac:(discriminate)). lia.
    + apply mod64_lt.
    + apply N.Div0.div_lt_upper_bound. lia.
  - pose proof (Byte.to_N_bounded a) as Ha.
    pose proof (Byte.to_N_bounded b) as Hb.
    pose proof (Byte.to_N_bounded c) as Hc.
    cbn [b64encode b64decode].
    rewrite !b64_index_char.
    + rewrite IH, decode3_encode. reflexivity.
    + apply mod64_lt.
    + apply mod64_lt.
    + apply mod64_lt.
    + apply N.Div0.div_lt_upper_bound. lia.
Qed.

Lemma b64encode_inj (a b : list byte) : b64encode a = b64encode b -> a = b.
Proof.
  intros H. apply (f_equal b64decode) in H.
  rewrite !b64decode_b64encode in H. injection H as H. exact H.
Qed.

End Base64Facts.

(** Binary blobs are rendered without loss: two blobs that normalize to
    the same text are the same bytes. *)
Theorem dump_obj_bytes_inj objs fuel1 fuel2 (a b : list byte) r :
  dump_obj fuel1 objs (PBytes a) = Ok r ->
  dump_obj fuel2 objs (PBytes b) = Ok r ->
  a = b.
Proof.
  intros Ha Hb.
  destruct fuel1 as [|f1]; [discriminate|].
  destruct fuel2 as [|f2]; [discriminate|].
  cbn [dump_obj] in Ha, Hb. rewrite b64_text_ok in Ha, Hb. simpl in Ha, Hb.
  rewrite <- Hb in Ha. injection Ha as Ha. unfold base64 in Ha.
  apply (f_equal list_byte_of_string) in Ha.
  rewrite !list_byte_of_string_of_list_byte in Ha.
  apply Base64Facts.b64encode_inj. exact Ha.
Qed.

Lemma dump_obj_bytes_inj_witness :
  [x00; xff]%byte = [x00; xff]%byte.
Proof.
  apply (dump_obj_bytes_inj ∅ 1 2 [x00; xff]%byte [x00; xff]%byte (PStr "AP8="));
    reflexivity.
Defined.
